(** * QTFileTransfer: asynchronous copy of a remote file to a local file

    A shallow embedding of [QTFileTransfer.c].  The program keeps its
    transfer state in eight global variables and talks to the outside
    world (Memory Manager, File Manager, Component Manager, the URL and
    HFS data handlers) through toolbox calls.  Here the globals and the
    part of the outside world the program can observe are one record,
    [State]; every toolbox call the program makes is appended to
    [trace], and the results the toolbox hands back are read from an
    oracle, [Env]. *)

From Stdlib Require Import ZArith List Bool String Lia.
From Stdlib Require Import Strings.Byte.
Import ListNotations.
Local Open Scope Z_scope.

(** ** Machine integers *)

(** [long], [Size], [ComponentResult]: 32-bit signed. *)
Definition wrap32 (z : Z) : Z := (z + 2147483648) mod 4294967296 - 2147483648.

(** [UInt32], the [lo] half of a [wide]. *)
Definition to_UInt32 (z : Z) : Z := z mod 4294967296.

(** [OSErr]: 16-bit signed; [to_OSErr] is the cast [(OSErr)myErr]. *)
Definition to_OSErr (z : Z) : Z := (z + 32768) mod 65536 - 32768.

Definition long_max : Z := 2147483647.

(** ** Pointers and toolbox constants *)

Definition Ptr := Z.
Definition Handle := Z.
Definition ComponentInstance := Z.
Definition DataHCompletionUPP := Z.
Definition OSErr := Z.
Definition ComponentResult := Z.
Definition NULL : Z := 0.

Definition noErr : Z := 0.
Definition fnfErr : Z := -43.
Definition dupFNErr : Z := -48.
Definition badComponentType : Z := -2005.
Definition sizeof_Handle : Z := 4.

Record wide := { hi : Z; lo : Z }.

(** The two completion routines a routine descriptor can wrap. *)
Inductive CompletionProc := ReadDataCompletionProc | WriteDataCompletionProc.

Inductive DataHandlerKind := URLDataHandler | AliasDataHandler.

Definition FSSpec := string.
Definition FileData := list byte.

(** ** Toolbox calls, as they appear in the trace *)

Inductive Call :=
| CallNewHandleClear (size : Z) (result : Handle)
| CallBlockMove (dst : Handle) (size : Z)
| CallFSpDelete (spec : FSSpec)
| CallFSpCreate (spec : FSSpec) (result : OSErr)
| CallQTNewAlias (spec : FSSpec) (result : OSErr)
| CallOpenComponent (kind : DataHandlerKind) (result : ComponentInstance)
| CallDataHSetDataRef (dh : ComponentInstance) (ref : Handle) (result : ComponentResult)
| CallNewPtrClear (size : Z) (result : Ptr)
| CallDataHOpenForRead (dh : ComponentInstance) (result : ComponentResult)
| CallDataHGetFileSize (dh : ComponentInstance) (result : ComponentResult)
| CallDataHOpenForWrite (dh : ComponentInstance) (result : ComponentResult)
| CallNewDataHCompletionUPP (proc : CompletionProc) (result : DataHCompletionUPP)
| CallDataHReadAsync (dh : ComponentInstance) (buf : Ptr) (len : Z) (offset : wide)
                     (completion : DataHCompletionUPP) (refCon : Z)
| CallDataHWrite (dh : ComponentInstance) (buf : Ptr) (offset : Z) (len : Z)
                 (completion : DataHCompletionUPP) (refCon : Z)
| CallDataHCloseForRead (dh : ComponentInstance)
| CallDataHCloseForWrite (dh : ComponentInstance)
| CallCloseComponent (dh : ComponentInstance)
| CallDisposePtr (p : Ptr)
| CallDisposeDataHCompletionUPP (upp : DataHCompletionUPP)
| CallDataHTask (dh : ComponentInstance).

(** An asynchronous request a data handler has accepted and not yet
    completed.  On completion the handler calls [req_completion] with
    the buffer and the [req_refCon] it was given. *)
Inductive RequestKind := ReadRequest | WriteRequest.

Record Request := {
  req_kind : RequestKind;
  req_buf : Ptr;
  req_len : Z;
  req_completion : DataHCompletionUPP;
  req_refCon : Z
}.

(** ** Program state *)

Record State := {
  (* the global variables of QTFileTransfer.c *)
  gDataBuffer : Ptr;
  gDataReader : ComponentInstance;
  gDataWriter : ComponentInstance;
  gReadDataHCompletionUPP : DataHCompletionUPP;
  gWriteDataHCompletionUPP : DataHCompletionUPP;
  gBytesToTransfer : Z;
  gBytesTransferred : Z;
  gDoneTransferring : bool;
  (* the outside world *)
  descriptors : list (DataHCompletionUPP * CompletionProc);
  outstanding : list Request;
  volume : list (FSSpec * FileData);
  trace : list Call
}.

Definition set_gDataBuffer (v : Ptr) (s : State) : State :=
  {| gDataBuffer := v; gDataReader := gDataReader s; gDataWriter := gDataWriter s;
     gReadDataHCompletionUPP := gReadDataHCompletionUPP s;
     gWriteDataHCompletionUPP := gWriteDataHCompletionUPP s;
     gBytesToTransfer := gBytesToTransfer s; gBytesTransferred := gBytesTransferred s;
     gDoneTransferring := gDoneTransferring s; descriptors := descriptors s;
     outstanding := outstanding s; volume := volume s; trace := trace s |}.

Definition set_gDataReader (v : ComponentInstance) (s : State) : State :=
  {| gDataBuffer := gDataBuffer s; gDataReader := v; gDataWriter := gDataWriter s;
     gReadDataHCompletionUPP := gReadDataHCompletionUPP s;
     gWriteDataHCompletionUPP := gWriteDataHCompletionUPP s;
     gBytesToTransfer := gBytesToTransfer s; gBytesTransferred := gBytesTransferred s;
     gDoneTransferring := gDoneTransferring s; descriptors := descriptors s;
     outstanding := outstanding s; volume := volume s; trace := trace s |}.

Definition set_gDataWriter (v : ComponentInstance) (s : State) : State :=
  {| gDataBuffer := gDataBuffer s; gDataReader := gDataReader s; gDataWriter := v;
     gReadDataHCompletionUPP := gReadDataHCompletionUPP s;
     gWriteDataHCompletionUPP := gWriteDataHCompletionUPP s;
     gBytesToTransfer := gBytesToTransfer s; gBytesTransferred := gBytesTransferred s;
     gDoneTransferring := gDoneTransferring s; descriptors := descriptors s;
     outstanding := outstanding s; volume := volume s; trace := trace s |}.

Definition set_gReadDataHCompletionUPP (v : DataHCompletionUPP) (s : State) : State :=
  {| gDataBuffer := gDataBuffer s; gDataReader := gDataReader s; gDataWriter := gDataWriter s;
     gReadDataHCompletionUPP := v;
     gWriteDataHCompletionUPP := gWriteDataHCompletionUPP s;
     gBytesToTransfer := gBytesToTransfer s; gBytesTransferred := gBytesTransferred s;
     gDoneTransferring := gDoneTransferring s; descriptors := descriptors s;
     outstanding := outstanding s; volume := volume s; trace := trace s |}.

Definition set_gWriteDataHCompletionUPP (v : DataHCompletionUPP) (s : State) : State :=
  {| gDataBuffer := gDataBuffer s; gDataReader := gDataReader s; gDataWriter := gDataWriter s;
     gReadDataHCompletionUPP := gReadDataHCompletionUPP s;
     gWriteDataHCompletionUPP := v;
     gBytesToTransfer := gBytesToTransfer s; gBytesTransferred := gBytesTransferred s;
     gDoneTransferring := gDoneTransferring s; descriptors := descriptors s;
     outstanding := outstanding s; volume := volume s; trace := trace s |}.

Definition set_gBytesToTransfer (v : Z) (s : State) : State :=
  {| gDataBuffer := gDataBuffer s; gDataReader := gDataReader s; gDataWriter := gDataWriter s;
     gReadDataHCompletionUPP := gReadDataHCompletionUPP s;
     gWriteDataHCompletionUPP := gWriteDataHCompletionUPP s;
     gBytesToTransfer := v; gBytesTransferred := gBytesTransferred s;
     gDoneTransferring := gDoneTransferring s; descriptors := descriptors s;
     outstanding := outstanding s; volume := volume s; trace := trace s |}.

Definition set_gBytesTransferred (v : Z) (s : State) : State :=
  {| gDataBuffer := gDataBuffer s; gDataReader := gDataReader s; gDataWriter := gDataWriter s;
     gReadDataHCompletionUPP := gReadDataHCompletionUPP s;
     gWriteDataHCompletionUPP := gWriteDataHCompletionUPP s;
     gBytesToTransfer := gBytesToTransfer s; gBytesTransferred := v;
     gDoneTransferring := gDoneTransferring s; descriptors := descriptors s;
     outstanding := outstanding s; volume := volume s; trace := trace s |}.

Definition set_gDoneTransferring (v : bool) (s : State) : State :=
  {| gDataBuffer := gDataBuffer s; gDataReader := gDataReader s; gDataWriter := gDataWriter s;
     gReadDataHCompletionUPP := gReadDataHCompletionUPP s;
     gWriteDataHCompletionUPP := gWriteDataHCompletionUPP s;
     gBytesToTransfer := gBytesToTransfer s; gBytesTransferred := gBytesTransferred s;
     gDoneTransferring := v; descriptors := descriptors s;
     outstanding := outstanding s; volume := volume s; trace := trace s |}.

Definition set_descriptors (v : list (DataHCompletionUPP * CompletionProc)) (s : State) : State :=
  {| gDataBuffer := gDataBuffer s; gDataReader := gDataReader s; gDataWriter := gDataWriter s;
     gReadDataHCompletionUPP := gReadDataHCompletionUPP s;
     gWriteDataHCompletionUPP := gWriteDataHCompletionUPP s;
     gBytesToTransfer := gBytesToTransfer s; gBytesTransferred := gBytesTransferred s;
     gDoneTransferring := gDoneTransferring s; descriptors := v;
     outstanding := outstanding s; volume := volume s; trace := trace s |}.

Definition set_outstanding (v : list Request) (s : State) : State :=
  {| gDataBuffer := gDataBuffer s; gDataReader := gDataReader s; gDataWriter := gDataWriter s;
     gReadDataHCompletionUPP := gReadDataHCompletionUPP s;
     gWriteDataHCompletionUPP := gWriteDataHCompletionUPP s;
     gBytesToTransfer := gBytesToTransfer s; gBytesTransferred := gBytesTransferred s;
     gDoneTransferring := gDoneTransferring s; descriptors := descriptors s;
     outstanding := v; volume := volume s; trace := trace s |}.

Definition set_volume (v : list (FSSpec * FileData)) (s : State) : State :=
  {| gDataBuffer := gDataBuffer s; gDataReader := gDataReader s; gDataWriter := gDataWriter s;
     gReadDataHCompletionUPP := gReadDataHCompletionUPP s;
     gWriteDataHCompletionUPP := gWriteDataHCompletionUPP s;
     gBytesToTransfer := gBytesToTransfer s; gBytesTransferred := gBytesTransferred s;
     gDoneTransferring := gDoneTransferring s; descriptors := descriptors s;
     outstanding := outstanding s; volume := v; trace := trace s |}.

(** [record c s]: the program makes toolbox call [c]. *)
Definition record (c : Call) (s : State) : State :=
  {| gDataBuffer := gDataBuffer s; gDataReader := gDataReader s; gDataWriter := gDataWriter s;
     gReadDataHCompletionUPP := gReadDataHCompletionUPP s;
     gWriteDataHCompletionUPP := gWriteDataHCompletionUPP s;
     gBytesToTransfer := gBytesToTransfer s; gBytesTransferred := gBytesTransferred s;
     gDoneTransferring := gDoneTransferring s; descriptors := descriptors s;
     outstanding := outstanding s; volume := volume s; trace := trace s ++ [c] |}.

(** The globals as the C file initialises them, on a given disk. *)
Definition initial_state (vol : list (FSSpec * FileData)) : State :=
  {| gDataBuffer := NULL; gDataReader := NULL; gDataWriter := NULL;
     gReadDataHCompletionUPP := NULL; gWriteDataHCompletionUPP := NULL;
     gBytesToTransfer := 0; gBytesTransferred := 0; gDoneTransferring := false;
     descriptors := []; outstanding := []; volume := vol; trace := [] |}.

(** ** The File Manager: a volume is an association list from file
    specifications to contents. *)

Fixpoint fs_lookup (spec : FSSpec) (vol : list (FSSpec * FileData)) : option FileData :=
  match vol with
  | [] => None
  | (n, d) :: rest => if String.eqb n spec then Some d else fs_lookup spec rest
  end.

Fixpoint fs_remove (spec : FSSpec) (vol : list (FSSpec * FileData)) : list (FSSpec * FileData) :=
  match vol with
  | [] => []
  | (n, d) :: rest =>
      if String.eqb n spec then fs_remove spec rest else (n, d) :: fs_remove spec rest
  end.

(** ** Routine descriptors *)

Fixpoint lookup_descriptor (upp : DataHCompletionUPP)
         (ds : list (DataHCompletionUPP * CompletionProc)) : option CompletionProc :=
  match ds with
  | [] => None
  | (u, p) :: rest => if u =? upp then Some p else lookup_descriptor upp rest
  end.

Fixpoint remove_descriptor (upp : DataHCompletionUPP)
         (ds : list (DataHCompletionUPP * CompletionProc))
  : list (DataHCompletionUPP * CompletionProc) :=
  match ds with
  | [] => []
  | (u, p) :: rest =>
      if u =? upp then remove_descriptor upp rest else (u, p) :: remove_descriptor upp rest
  end.

(** ** The toolbox

    What each call returns is decided outside the program.  [Env] holds
    the results of the calls of one run of
    [QTFileTrans_CopyRemoteFileToLocalFile], one field per call site. *)

Record Env := {
  env_reader_ref : Handle;              (* NewHandleClear(mySize) *)
  env_delete_err : OSErr;               (* FSpDelete on an existing file *)
  env_writer_ref : Handle;              (* NewHandleClear(sizeof(Handle)) *)
  env_create_err : OSErr;               (* FSpCreate when no such file exists *)
  env_alias_err : OSErr;                (* QTNewAlias *)
  env_alias : Handle;
  env_reader : ComponentInstance;       (* OpenComponent, URL data handler *)
  env_writer : ComponentInstance;       (* OpenComponent, HFS data handler *)
  env_reader_setref : ComponentResult;  (* DataHSetDataRef(gDataReader, ...) *)
  env_writer_setref : ComponentResult;  (* DataHSetDataRef(gDataWriter, ...) *)
  env_buffer : Ptr;                     (* NewPtrClear(kDataBufferSize) *)
  env_mem_err : OSErr;                  (* MemError() *)
  env_open_read : ComponentResult;      (* DataHOpenForRead *)
  env_get_size : ComponentResult;       (* DataHGetFileSize *)
  env_file_size : Z;
  env_open_write : ComponentResult;     (* DataHOpenForWrite *)
  env_read_upp : DataHCompletionUPP;    (* NewDataHCompletionUPP, read routine *)
  env_write_upp : DataHCompletionUPP    (* NewDataHCompletionUPP, write routine *)
}.

Definition NewHandleClear (result : Handle) (size : Z) (s : State) : Handle * State :=
  (result, record (CallNewHandleClear size result) s).

Definition BlockMove (dst : Handle) (size : Z) (s : State) : State :=
  record (CallBlockMove dst size) s.

(** [FSpDelete] removes the file if it is there and can be removed;
    with no such file it answers [fnfErr]. *)
Definition FSpDelete (e : Env) (spec : FSSpec) (s : State) : OSErr * State :=
  let s := record (CallFSpDelete spec) s in
  match fs_lookup spec (volume s) with
  | None => (fnfErr, s)
  | Some _ =>
      if env_delete_err e =? noErr
      then (noErr, set_volume (fs_remove spec (volume s)) s)
      else (env_delete_err e, s)
  end.

(** [FSpCreate] makes an empty file; a file of that name already
    there is an error, [dupFNErr]. *)
Definition FSpCreate (e : Env) (spec : FSSpec) (s : State) : OSErr * State :=
  match fs_lookup spec (volume s) with
  | Some _ => (dupFNErr, record (CallFSpCreate spec dupFNErr) s)
  | None =>
      if env_create_err e =? noErr
      then (noErr, set_volume ((spec, []) :: volume s) (record (CallFSpCreate spec noErr) s))
      else (env_create_err e, record (CallFSpCreate spec (env_create_err e)) s)
  end.

Definition QTNewAlias (e : Env) (spec : FSSpec) (s : State) : OSErr * State :=
  (env_alias_err e, record (CallQTNewAlias spec (env_alias_err e)) s).

(** [OpenComponent(GetDataHandler(ref, subType, flags))]. *)
Definition OpenComponent (kind : DataHandlerKind) (result : ComponentInstance) (s : State)
  : ComponentInstance * State :=
  (result, record (CallOpenComponent kind result) s).

Definition DataHSetDataRef (dh : ComponentInstance) (ref : Handle) (result : ComponentResult)
           (s : State) : ComponentResult * State :=
  (result, record (CallDataHSetDataRef dh ref result) s).

Definition NewPtrClear (result : Ptr) (size : Z) (s : State) : Ptr * State :=
  (result, record (CallNewPtrClear size result) s).

Definition DataHOpenForRead (dh : ComponentInstance) (result : ComponentResult) (s : State)
  : ComponentResult * State :=
  (result, record (CallDataHOpenForRead dh result) s).

(** [DataHGetFileSize(gDataReader, &gBytesToTransfer)]: the size is
    stored through the pointer when the call succeeds. *)
Definition DataHGetFileSize (e : Env) (dh : ComponentInstance) (s : State)
  : ComponentResult * State :=
  let s := record (CallDataHGetFileSize dh (env_get_size e)) s in
  if env_get_size e =? noErr
  then (noErr, set_gBytesToTransfer (env_file_size e) s)
  else (env_get_size e, s).

Definition DataHOpenForWrite (dh : ComponentInstance) (result : ComponentResult) (s : State)
  : ComponentResult * State :=
  (result, record (CallDataHOpenForWrite dh result) s).

(** A new routine descriptor for [proc], at the address the Memory
    Manager chose ([NULL]: none could be made). *)
Definition NewDataHCompletionUPP (proc : CompletionProc) (result : DataHCompletionUPP)
           (s : State) : DataHCompletionUPP * State :=
  let s := record (CallNewDataHCompletionUPP proc result) s in
  if result =? NULL then (result, s)
  else (result, set_descriptors ((result, proc) :: descriptors s) s).

(** The asynchronous calls return at once; the request waits in
    [outstanding] until the data handler completes it. *)
Definition DataHReadAsync (dh : ComponentInstance) (buf : Ptr) (len : Z) (offset : wide)
           (completion : DataHCompletionUPP) (refCon : Z) (s : State) : State :=
  let s := record (CallDataHReadAsync dh buf len offset completion refCon) s in
  set_outstanding
    (outstanding s ++
     [{| req_kind := ReadRequest; req_buf := buf; req_len := len;
         req_completion := completion; req_refCon := refCon |}]) s.

Definition DataHWrite (dh : ComponentInstance) (buf : Ptr) (offset : Z) (len : Z)
           (completion : DataHCompletionUPP) (refCon : Z) (s : State) : State :=
  let s := record (CallDataHWrite dh buf offset len completion refCon) s in
  set_outstanding
    (outstanding s ++
     [{| req_kind := WriteRequest; req_buf := buf; req_len := len;
         req_completion := completion; req_refCon := refCon |}]) s.

Definition DataHCloseForRead (dh : ComponentInstance) (s : State) : State :=
  record (CallDataHCloseForRead dh) s.

Definition DataHCloseForWrite (dh : ComponentInstance) (s : State) : State :=
  record (CallDataHCloseForWrite dh) s.

Definition CloseComponent (dh : ComponentInstance) (s : State) : State :=
  record (CallCloseComponent dh) s.

Definition DisposePtr (p : Ptr) (s : State) : State :=
  record (CallDisposePtr p) s.

Definition DisposeDataHCompletionUPP (upp : DataHCompletionUPP) (s : State) : State :=
  set_descriptors (remove_descriptor upp (descriptors s))
                  (record (CallDisposeDataHCompletionUPP upp) s).

Definition DataHTask (dh : ComponentInstance) (s : State) : State :=
  record (CallDataHTask dh) s.

(** ** The program *)

Section QTFileTransfer.

(** [kDataBufferSize] is defined in QTFileTransfer.h. *)
Variable kDataBufferSize : Z.

(** [QTFileTrans_ReadDataCompletionProc]: a read has completed, so
    schedule the write of what was read. *)
Definition QTFileTrans_ReadDataCompletionProc
           (theRequest : Ptr) (theRefCon : Z) (theErr : OSErr) (s : State) : State :=
  DataHWrite (gDataWriter s)
             theRequest
             (gBytesTransferred s)
             theRefCon
             (gWriteDataHCompletionUPP s)
             theRefCon
             s.

(** [QTFileTrans_WriteDataCompletionProc]: a write has completed, so
    tally it and schedule the next read, or flag the end. *)
Definition QTFileTrans_WriteDataCompletionProc
           (theRequest : Ptr) (theRefCon : Z) (theErr : OSErr) (s : State) : State :=
  let s := set_gBytesTransferred (wrap32 (gBytesTransferred s + theRefCon)) s in
  if gBytesTransferred s <? gBytesToTransfer s then
    let myNumBytesToRead :=
      if wrap32 (gBytesToTransfer s - gBytesTransferred s) >? kDataBufferSize
      then kDataBufferSize
      else wrap32 (gBytesToTransfer s - gBytesTransferred s) in
    let myWide := {| hi := 0; lo := to_UInt32 (gBytesTransferred s) |} in
    DataHReadAsync (gDataReader s)
                   theRequest
                   myNumBytesToRead
                   myWide
                   (gReadDataHCompletionUPP s)
                   myNumBytesToRead
                   s
  else
    set_gDoneTransferring true s.

(** [QTFileTrans_CloseDownHandlers]. *)
Definition QTFileTrans_CloseDownHandlers (s : State) : State :=
  let s :=
    if negb (gDataReader s =? NULL)
    then set_gDataReader NULL
           (CloseComponent (gDataReader s) (DataHCloseForRead (gDataReader s) s))
    else s in
  let s :=
    if negb (gDataWriter s =? NULL)
    then set_gDataWriter NULL
           (CloseComponent (gDataWriter s) (DataHCloseForWrite (gDataWriter s) s))
    else s in
  let s :=
    if negb (gDataBuffer s =? NULL) then DisposePtr (gDataBuffer s) s else s in
  let s :=
    if negb (gReadDataHCompletionUPP s =? NULL)
    then DisposeDataHCompletionUPP (gReadDataHCompletionUPP s) s else s in
  let s :=
    if negb (gWriteDataHCompletionUPP s =? NULL)
    then DisposeDataHCompletionUPP (gWriteDataHCompletionUPP s) s else s in
  s.

(** The body of [QTFileTrans_CopyRemoteFileToLocalFile] down to the
    label [bail]: every [goto bail] is a return of the current [myErr]. *)
Definition QTFileTrans_setup (e : Env) (theURL : string) (theFSSpecPtr : FSSpec)
           (s : State) : ComponentResult * State :=
  let myErr := badComponentType in
  let mySize := wrap32 (wrap32 (Z.of_nat (String.length theURL)) + 1) in
  if mySize =? 0 then (myErr, s) else
  let '(myReaderRef, s) := NewHandleClear (env_reader_ref e) mySize s in
  if myReaderRef =? NULL then (myErr, s) else
  let s := BlockMove myReaderRef mySize s in
  let '(_, s) := FSpDelete e theFSSpecPtr s in
  let '(myWriterRef, s) := NewHandleClear (env_writer_ref e) sizeof_Handle s in
  if myWriterRef =? NULL then (myErr, s) else
  let '(myErr, s) := FSpCreate e theFSSpecPtr s in
  if negb (myErr =? noErr) then (myErr, s) else
  let '(myErr, s) := QTNewAlias e theFSSpecPtr s in
  let myWriterRef := if myErr =? noErr then env_alias e else myWriterRef in
  if negb (myErr =? noErr) then (myErr, s) else
  let '(r, s) := OpenComponent URLDataHandler (env_reader e) s in
  let s := set_gDataReader r s in
  if gDataReader s =? NULL then (myErr, s) else
  let '(r, s) := OpenComponent AliasDataHandler (env_writer e) s in
  let s := set_gDataWriter r s in
  if gDataWriter s =? NULL then (myErr, s) else
  let '(myErr, s) := DataHSetDataRef (gDataReader s) myReaderRef (env_reader_setref e) s in
  if negb (myErr =? noErr) then (myErr, s) else
  let '(myErr, s) := DataHSetDataRef (gDataWriter s) myWriterRef (env_writer_setref e) s in
  if negb (myErr =? noErr) then (myErr, s) else
  let '(r, s) := NewPtrClear (env_buffer e) kDataBufferSize s in
  let s := set_gDataBuffer r s in
  let myErr := env_mem_err e in
  if negb (myErr =? noErr) then (myErr, s) else
  let '(myErr, s) := DataHOpenForRead (gDataReader s) (env_open_read e) s in
  if negb (myErr =? noErr) then (myErr, s) else
  let '(myErr, s) := DataHGetFileSize e (gDataReader s) s in
  if negb (myErr =? noErr) then (myErr, s) else
  let '(myErr, s) := DataHOpenForWrite (gDataWriter s) (env_open_write e) s in
  if negb (myErr =? noErr) then (myErr, s) else
  let s := set_gDoneTransferring false s in
  let s := set_gBytesTransferred 0 s in
  let '(r, s) := NewDataHCompletionUPP ReadDataCompletionProc (env_read_upp e) s in
  let s := set_gReadDataHCompletionUPP r s in
  let '(r, s) := NewDataHCompletionUPP WriteDataCompletionProc (env_write_upp e) s in
  let s := set_gWriteDataHCompletionUPP r s in
  let s := QTFileTrans_WriteDataCompletionProc (gDataBuffer s) 0 noErr s in
  (myErr, s).

(** [QTFileTrans_CopyRemoteFileToLocalFile]: the body, then the code
    at [bail]. *)
Definition QTFileTrans_CopyRemoteFileToLocalFile
           (e : Env) (theURL : string) (theFSSpecPtr : FSSpec) (s : State) : OSErr * State :=
  let '(myErr, s) := QTFileTrans_setup e theURL theFSSpecPtr s in
  let s := if negb (myErr =? noErr) then QTFileTrans_CloseDownHandlers s else s in
  (to_OSErr myErr, s).

(** The code the file's header asks the application to run from its
    event loop (or a timer). *)
Definition event_loop_step (s : State) : State :=
  let s := if gDoneTransferring s then QTFileTrans_CloseDownHandlers s else s in
  let s := if negb (gDataReader s =? NULL) then DataHTask (gDataReader s) s else s in
  let s := if negb (gDataWriter s =? NULL) then DataHTask (gDataWriter s) s else s in
  s.

(** ** Completions

    The data handler that holds the oldest outstanding request finishes
    it, having moved [actual] bytes, and calls the request's completion
    routine with the request's buffer and reference constant and an
    error code of its choosing.  [None]: nothing is outstanding. *)
Definition deliver (actual : Z) (err : OSErr) (s : State) : option State :=
  match outstanding s with
  | [] => None
  | r :: rest =>
      let s := set_outstanding rest s in
      match lookup_descriptor (req_completion r) (descriptors s) with
      | None => Some s
      | Some ReadDataCompletionProc =>
          Some (QTFileTrans_ReadDataCompletionProc (req_buf r) (req_refCon r) err s)
      | Some WriteDataCompletionProc =>
          Some (QTFileTrans_WriteDataCompletionProc (req_buf r) (req_refCon r) err s)
      end
  end.

(** Deliver completions until nothing is outstanding (or [fuel] ends);
    [io n] is what the data handler reports at the completion with
    [n] deliveries still to go. *)
Fixpoint run (fuel : nat) (io : nat -> Z * OSErr) (s : State) : State :=
  match fuel with
  | O => s
  | S n =>
      match deliver (fst (io n)) (snd (io n)) s with
      | None => s
      | Some s' => run n io s'
      end
  end.

(** States a transfer passes through: from [s0], any number of
    completions. *)
Inductive Reachable (s0 : State) : State -> Prop :=
| reach_start : Reachable s0 s0
| reach_completion : forall s actual err s',
    Reachable s0 s -> deliver actual err s = Some s' -> Reachable s0 s'.

End QTFileTransfer.

(** ** Reading a trace *)

Definition read_length (c : Call) : list Z :=
  match c with
  | CallDataHReadAsync _ _ len _ _ _ => [len]
  | _ => []
  end.

Definition write_length (c : Call) : list Z :=
  match c with
  | CallDataHWrite _ _ _ len _ _ => [len]
  | _ => []
  end.

(** The lengths of the reads (writes) issued, in the order issued. *)
Definition read_lengths (t : list Call) : list Z := flat_map read_length t.
Definition write_lengths (t : list Call) : list Z := flat_map write_length t.

Definition is_io (c : Call) : bool :=
  match c with
  | CallDataHReadAsync _ _ _ _ _ _ | CallDataHWrite _ _ _ _ _ _ | CallDataHTask _ => true
  | _ => false
  end.

Definition sum (l : list Z) : Z := fold_right Z.add 0 l.

(** ** Sample runs *)

(** A 10,000-byte file behind a set-up in which every call succeeds. *)
Definition sample_env : Env :=
  {| env_reader_ref := 1000; env_delete_err := noErr; env_writer_ref := 1004;
     env_create_err := noErr; env_alias_err := noErr; env_alias := 1008;
     env_reader := 2000; env_writer := 2004;
     env_reader_setref := noErr; env_writer_setref := noErr;
     env_buffer := 3000; env_mem_err := noErr;
     env_open_read := noErr; env_get_size := noErr; env_file_size := 10000;
     env_open_write := noErr; env_read_upp := 4000; env_write_upp := 4004 |}.

(** Data handlers that report [noErr] at every completion. *)
Definition sample_io (n : nat) : Z * OSErr := (0, noErr).

(** ** When the set-up goes through *)

(** Every step of the set-up that the program checks succeeds. *)
Definition setup_succeeds (e : Env) (theURL : string) (spec : FSSpec)
           (vol : list (FSSpec * FileData)) : bool :=
  negb (wrap32 (wrap32 (Z.of_nat (String.length theURL)) + 1) =? 0)
  && negb (env_reader_ref e =? NULL)
  && match fs_lookup spec vol with
     | None => true
     | Some _ => env_delete_err e =? noErr
     end
  && negb (env_writer_ref e =? NULL)
  && (env_create_err e =? noErr)
  && (env_alias_err e =? noErr)
  && negb (env_reader e =? NULL)
  && negb (env_writer e =? NULL)
  && (env_reader_setref e =? noErr)
  && (env_writer_setref e =? noErr)
  && (env_mem_err e =? noErr)
  && (env_open_read e =? noErr)
  && (env_get_size e =? noErr)
  && (env_open_write e =? noErr).

(** The two routine descriptors were made, at different addresses. *)
Definition descriptors_made (e : Env) : bool :=
  negb (env_read_upp e =? NULL)
  && negb (env_write_upp e =? NULL)
  && negb (env_read_upp e =? env_write_upp e).

Definition no_io (t : list Call) : bool := forallb (fun c => negb (is_io c)) t.

(** The state at the bootstrap call: counters reset, nothing scheduled. *)
Record Primed (e : Env) (s : State) : Prop := {
  primed_total : gBytesToTransfer s = env_file_size e;
  primed_count : gBytesTransferred s = 0;
  primed_done : gDoneTransferring s = false;
  primed_idle : outstanding s = [];
  primed_quiet : no_io (trace s) = true;
  primed_reader : gDataReader s = env_reader e;
  primed_writer : gDataWriter s = env_writer e;
  primed_buffer : gDataBuffer s = env_buffer e;
  primed_read_upp : gReadDataHCompletionUPP s = env_read_upp e;
  primed_write_upp : gWriteDataHCompletionUPP s = env_write_upp e;
  primed_descriptors :
    descriptors s =
    (if env_write_upp e =? NULL then [] else [(env_write_upp e, WriteDataCompletionProc)])
    ++ (if env_read_upp e =? NULL then [] else [(env_read_upp e, ReadDataCompletionProc)])
}.

(** ** Definitions used to state the properties *)

(** The read lengths the specification expects: [S / C] full buffers,
    then the remainder if there is one. *)
Definition expected_read_lengths (S C : Z) : list Z :=
  repeat C (Z.to_nat (S / C)) ++ (if S mod C =? 0 then [] else [S mod C]).

(** The transfer is wired up: the size is fixed and the two routine
    descriptors the program passes to the data handlers lead to its
    two completion routines. *)
Record Linked (total : Z) (s : State) : Prop := {
  linked_total : gBytesToTransfer s = total;
  linked_range : 0 <= total <= long_max;
  linked_read : lookup_descriptor (gReadDataHCompletionUPP s) (descriptors s)
                = Some ReadDataCompletionProc;
  linked_write : lookup_descriptor (gWriteDataHCompletionUPP s) (descriptors s)
                 = Some WriteDataCompletionProc
}.

(** Where the transfer stands: finished, or with exactly one request
    outstanding, a read or the write of what was read. *)
Inductive Phase (total : Z) (s : State) : Prop :=
| phase_done :
    outstanding s = [] ->
    gBytesTransferred s = total ->
    gDoneTransferring s = true ->
    Phase total s
| phase_reading : forall buf k,
    outstanding s = [{| req_kind := ReadRequest; req_buf := buf; req_len := k;
                        req_completion := gReadDataHCompletionUPP s; req_refCon := k |}] ->
    0 < k -> 0 <= gBytesTransferred s -> gBytesTransferred s + k <= total ->
    gDoneTransferring s = false ->
    Phase total s
| phase_writing : forall buf k,
    outstanding s = [{| req_kind := WriteRequest; req_buf := buf; req_len := k;
                        req_completion := gWriteDataHCompletionUPP s; req_refCon := k |}] ->
    0 < k -> 0 <= gBytesTransferred s -> gBytesTransferred s + k <= total ->
    gDoneTransferring s = false ->
    Phase total s.

(** The state in which the sample transfer starts. *)
Abbreviation sample_start :=
  (snd (QTFileTrans_CopyRemoteFileToLocalFile 4096 sample_env
          "http://host/file"%string "copy"%string (initial_state []))).

(** A zero-length file behind the sample set-up. *)
Definition empty_env : Env :=
  {| env_reader_ref := 1000; env_delete_err := noErr; env_writer_ref := 1004;
     env_create_err := noErr; env_alias_err := noErr; env_alias := 1008;
     env_reader := 2000; env_writer := 2004;
     env_reader_setref := noErr; env_writer_setref := noErr;
     env_buffer := 3000; env_mem_err := noErr;
     env_open_read := noErr; env_get_size := noErr; env_file_size := 0;
     env_open_write := noErr; env_read_upp := 4000; env_write_upp := 4004 |}.

(** The toolbox calls [QTFileTrans_CloseDownHandlers] makes in state [s]. *)
Definition closedown_calls (s : State) : list Call :=
  (if negb (gDataReader s =? NULL)
   then [CallDataHCloseForRead (gDataReader s); CallCloseComponent (gDataReader s)] else [])
  ++ (if negb (gDataWriter s =? NULL)
      then [CallDataHCloseForWrite (gDataWriter s); CallCloseComponent (gDataWriter s)] else [])
  ++ (if negb (gDataBuffer s =? NULL) then [CallDisposePtr (gDataBuffer s)] else [])
  ++ (if negb (gReadDataHCompletionUPP s =? NULL)
      then [CallDisposeDataHCompletionUPP (gReadDataHCompletionUPP s)] else [])
  ++ (if negb (gWriteDataHCompletionUPP s =? NULL)
      then [CallDisposeDataHCompletionUPP (gWriteDataHCompletionUPP s)] else []).

Definition is_dispose_ptr (p : Ptr) (c : Call) : bool :=
  match c with
  | CallDisposePtr q => q =? p
  | _ => false
  end.

Definition is_dispose_upp (u : DataHCompletionUPP) (c : Call) : bool :=
  match c with
  | CallDisposeDataHCompletionUPP v => v =? u
  | _ => false
  end.

Definition is_close_component (c : Call) : bool :=
  match c with
  | CallCloseComponent _ | CallDataHCloseForRead _ | CallDataHCloseForWrite _ => true
  | _ => false
  end.

(** How many calls of a trace satisfy [p]. *)
Definition count_calls (p : Call -> bool) (t : list Call) : nat :=
  List.length (filter p t).

(** The error codes the toolbox hands to the set-up. *)
Definition env_error_codes (e : Env) : list Z :=
  [env_create_err e; env_alias_err e; env_reader_setref e; env_writer_setref e;
   env_mem_err e; env_open_read e; env_get_size e; env_open_write e].

(** The values of an [OSErr]. *)
Definition is_OSErr (z : Z) : bool := (-32768 <=? z) && (z <=? 32767).

(** At [bail] after a failure the program has noticed: [myErr] is an
    error, its initial value or one the toolbox gave; no read or write
    was scheduled, nothing is outstanding. *)
Definition Noticed (e : Env) (r : ComponentResult * State) : Prop :=
  fst r <> noErr
  /\ In (fst r) (badComponentType :: dupFNErr :: env_error_codes e)
  /\ no_io (trace (snd r)) = true
  /\ outstanding (snd r) = [].

(** The set-up gets as far as opening the data handlers. *)
Definition reaches_open (e : Env) (theURL : string) (spec : FSSpec)
           (vol : list (FSSpec * FileData)) : bool :=
  negb (wrap32 (wrap32 (Z.of_nat (String.length theURL)) + 1) =? 0)
  && negb (env_reader_ref e =? NULL)
  && match fs_lookup spec vol with
     | None => true
     | Some _ => env_delete_err e =? noErr
     end
  && negb (env_writer_ref e =? NULL)
  && (env_create_err e =? noErr)
  && (env_alias_err e =? noErr).

(** The sample set-up, except that the HFS data handler cannot be opened. *)
Definition no_writer_env : Env :=
  {| env_reader_ref := 1000; env_delete_err := noErr; env_writer_ref := 1004;
     env_create_err := noErr; env_alias_err := noErr; env_alias := 1008;
     env_reader := 2000; env_writer := NULL;
     env_reader_setref := noErr; env_writer_setref := noErr;
     env_buffer := 3000; env_mem_err := noErr;
     env_open_read := noErr; env_get_size := noErr; env_file_size := 10000;
     env_open_write := noErr; env_read_upp := 4000; env_write_upp := 4004 |}.

(** The sample set-up, except that the URL data handler cannot be opened. *)
Definition no_reader_env : Env :=
  {| env_reader_ref := 1000; env_delete_err := noErr; env_writer_ref := 1004;
     env_create_err := noErr; env_alias_err := noErr; env_alias := 1008;
     env_reader := NULL; env_writer := 2004;
     env_reader_setref := noErr; env_writer_setref := noErr;
     env_buffer := 3000; env_mem_err := noErr;
     env_open_read := noErr; env_get_size := noErr; env_file_size := 10000;
     env_open_write := noErr; env_read_upp := 4000; env_write_upp := 4004 |}.

Definition is_delete (spec : FSSpec) (c : Call) : bool :=
  match c with
  | CallFSpDelete n => String.eqb n spec
  | _ => false
  end.

Definition is_create (spec : FSSpec) (c : Call) : bool :=
  match c with
  | CallFSpCreate n _ => String.eqb n spec
  | _ => false
  end.

(** A successful [FSpCreate] of [spec]. *)
Definition is_created (spec : FSSpec) (c : Call) : bool :=
  match c with
  | CallFSpCreate n r => String.eqb n spec && (r =? noErr)
  | _ => false
  end.

Definition is_open_write (c : Call) : bool :=
  match c with
  | CallDataHOpenForWrite _ _ => true
  | _ => false
  end.

(** [preceded p q t]: no call satisfying [q] occurs in [t] before the
    first call satisfying [p]. *)
Fixpoint preceded (p q : Call -> bool) (t : list Call) : bool :=
  match t with
  | [] => true
  | c :: t' => if q c then false else if p c then true else preceded p q t'
  end.

(** In what the program has done so far: the destination was deleted
    before it was created, it was created before it was opened for
    writing, and if it has been opened for writing it is the new,
    empty file. *)
Definition Replaced (spec : FSSpec) (s : State) : Prop :=
  preceded (is_delete spec) (is_create spec) (trace s) = true
  /\ preceded (is_created spec) is_open_write (trace s) = true
  /\ (existsb is_open_write (trace s) = true -> fs_lookup spec (volume s) = Some []).

Definition ReplacedAt (spec : FSSpec) (r : ComponentResult * State) : Prop :=
  Replaced spec (snd r).

(** The destination can be cleared: it is not there, or [FSpDelete]
    removes it. *)
Definition deletable (e : Env) (spec : FSSpec) (vol : list (FSSpec * FileData)) : bool :=
  match fs_lookup spec vol with
  | None => true
  | Some _ => env_delete_err e =? noErr
  end.

(** ** Definitions used to state further properties *)

(** Where in the remote file each read starts, and where in the local
    file each write goes, in the order issued. *)
Definition read_offset (c : Call) : list wide :=
  match c with
  | CallDataHReadAsync _ _ _ offset _ _ => [offset]
  | _ => []
  end.

Definition write_offset (c : Call) : list Z :=
  match c with
  | CallDataHWrite _ _ offset _ _ _ => [offset]
  | _ => []
  end.

Definition read_offsets (t : list Call) : list wide := flat_map read_offset t.

Definition write_offsets (t : list Call) : list Z := flat_map write_offset t.

(** Where pieces of the given lengths start when laid end to end
    from [from]. *)
Fixpoint starts (from : Z) (l : list Z) : list Z :=
  match l with
  | [] => []
  | x :: l' => from :: starts (from + x) l'
  end.

(** A file offset below 4 GB as a [wide]. *)
Definition at_offset (z : Z) : wide := {| hi := 0; lo := z |}.

Definition is_read_request (r : Request) : bool :=
  match req_kind r with
  | ReadRequest => true
  | WriteRequest => false
  end.

Definition is_write_request (r : Request) : bool :=
  match req_kind r with
  | ReadRequest => false
  | WriteRequest => true
  end.

(** A read or write call of the transfer set up under [e]: on the
    right component, through the data buffer, of a length that fits
    the buffer, tagged with its length. *)
Definition call_fits (e : Env) (C : Z) (c : Call) : Prop :=
  match c with
  | CallDataHReadAsync dh buf len offset upp refCon =>
      dh = env_reader e /\ buf = env_buffer e /\ 0 < len <= C
      /\ upp = env_read_upp e /\ refCon = len /\ hi offset = 0
  | CallDataHWrite dh buf offset len upp refCon =>
      dh = env_writer e /\ buf = env_buffer e /\ 0 < len <= C
      /\ upp = env_write_upp e /\ refCon = len
  | _ => True
  end.

(** The books of a running transfer: what the globals, the
    outstanding requests and the trace have to do with one another. *)
Record Ledger (e : Env) (C : Z) (s : State) : Prop := {
  ledger_buffer : gDataBuffer s = env_buffer e;
  ledger_reader : gDataReader s = env_reader e;
  ledger_writer : gDataWriter s = env_writer e;
  ledger_read_upp : gReadDataHCompletionUPP s = env_read_upp e;
  ledger_write_upp : gWriteDataHCompletionUPP s = env_write_upp e;
  ledger_requests :
    Forall (fun r => req_buf r = env_buffer e /\ req_len r <= C) (outstanding s);
  ledger_calls : Forall (call_fits e C) (trace s);
  ledger_read_sum :
    sum (read_lengths (trace s))
    = gBytesTransferred s + sum (map req_len (outstanding s));
  ledger_write_sum :
    sum (write_lengths (trace s))
    = gBytesTransferred s + sum (map req_len (filter is_write_request (outstanding s)));
  ledger_mirror :
    read_lengths (trace s)
    = write_lengths (trace s) ++ map req_len (filter is_read_request (outstanding s));
  ledger_read_offsets :
    map lo (read_offsets (trace s)) = starts 0 (read_lengths (trace s));
  ledger_write_offsets :
    write_offsets (trace s) = starts 0 (write_lengths (trace s))
}.

(** After a set-up that started nothing: no read or write issued,
    nothing outstanding, flag and tally as at program start. *)
Definition Idle (r : ComponentResult * State) : Prop :=
  no_io (trace (snd r)) = true
  /\ outstanding (snd r) = []
  /\ gDoneTransferring (snd r) = false
  /\ gBytesTransferred (snd r) = 0.

(** The components a trace opened ([OpenComponent] answering other
    than [NULL]) and the components it closed, in order. *)
Definition opened_component (c : Call) : list ComponentInstance :=
  match c with
  | CallOpenComponent _ r => if r =? NULL then [] else [r]
  | _ => []
  end.

Definition closed_component (c : Call) : list ComponentInstance :=
  match c with
  | CallCloseComponent dh => [dh]
  | _ => []
  end.

Definition opened (t : list Call) : list ComponentInstance := flat_map opened_component t.

Definition closed (t : list Call) : list ComponentInstance := flat_map closed_component t.

(** The components held by the two globals. *)
Definition held (s : State) : list ComponentInstance :=
  (if gDataReader s =? NULL then [] else [gDataReader s])
  ++ (if gDataWriter s =? NULL then [] else [gDataWriter s]).

(** At [bail]: nothing closed yet, and what was opened is what the
    two globals hold. *)
Definition Held (r : ComponentResult * State) : Prop :=
  closed (trace (snd r)) = [] /\ opened (trace (snd r)) = held (snd r).

(** The first toolbox call made. *)
Definition Begins (c : Call) (r : ComponentResult * State) : Prop :=
  exists rest, trace (snd r) = c :: rest.

(** The old destination file is gone: no file, or the new empty one. *)
Definition Cleared (spec : FSSpec) (r : ComponentResult * State) : Prop :=
  fs_lookup spec (volume (snd r)) = None \/ fs_lookup spec (volume (snd r)) = Some [].

(** The sample set-up, except that the remote file cannot be opened
    for reading ([ioErr]). *)
Definition unreachable_env : Env :=
  {| env_reader_ref := 1000; env_delete_err := noErr; env_writer_ref := 1004;
     env_create_err := noErr; env_alias_err := noErr; env_alias := 1008;
     env_reader := 2000; env_writer := 2004;
     env_reader_setref := noErr; env_writer_setref := noErr;
     env_buffer := 3000; env_mem_err := noErr;
     env_open_read := -36; env_get_size := noErr; env_file_size := 10000;
     env_open_write := noErr; env_read_upp := 4000; env_write_upp := 4004 |}.


Arguments wrap32 : simpl never.
Arguments to_UInt32 : simpl never.
Arguments to_OSErr : simpl never.

Ltac break_if :=
  match goal with
  | |- context [if ?c then _ else _] => destruct c eqn:?
  end.

Lemma fs_lookup_remove spec vol : fs_lookup spec (fs_remove spec vol) = None.
Proof.
  induction vol as [|[n d] vol IH]; simpl; auto.
  destruct (String.eqb n spec) eqn:E; simpl; auto.
  now rewrite E.
Qed.

Lemma fs_remove_absent spec vol : fs_lookup spec vol = None -> fs_remove spec vol = vol.
Proof.
  induction vol as [|[n d] vol IH]; simpl; auto.
  destruct (String.eqb n spec); [discriminate|].
  intros H. now rewrite IH.
Qed.

Lemma no_io_app t1 t2 : no_io (t1 ++ t2) = no_io t1 && no_io t2.
Proof. apply forallb_app. Qed.

Lemma to_OSErr_small z : -32768 <= z <= 32767 -> to_OSErr z = z.
Proof.
  unfold to_OSErr. intros H.
  rewrite Z.mod_small; lia.
Qed.

Section Setup.

Variable kDataBufferSize : Z.

Lemma copy_success e theURL spec vol :
  setup_succeeds e theURL spec vol = true ->
  exists s,
    QTFileTrans_CopyRemoteFileToLocalFile kDataBufferSize e theURL spec (initial_state vol)
    = (noErr, QTFileTrans_WriteDataCompletionProc kDataBufferSize (gDataBuffer s) 0 noErr s)
    /\ Primed e s
    /\ volume s = (spec, []) :: fs_remove spec vol
    /\ existsb is_open_write (trace s) = true.
Proof.
  unfold setup_succeeds. intros H.
  repeat (apply andb_prop in H; destruct H as [H ?]).
  repeat match goal with
         | H : negb _ = true |- _ => apply negb_true_iff in H
         end.
  unfold QTFileTrans_CopyRemoteFileToLocalFile, QTFileTrans_setup.
  unfold NewHandleClear, BlockMove, FSpDelete, FSpCreate, QTNewAlias, OpenComponent,
    DataHSetDataRef, NewPtrClear, DataHOpenForRead, DataHGetFileSize, DataHOpenForWrite.
  simpl. rewrite H, H12.
  assert (E0 : env_open_write e = noErr) by now apply Z.eqb_eq.
  destruct (fs_lookup spec vol) eqn:L.
  - rewrite H11. simpl. rewrite H10, fs_lookup_remove, H9. simpl.
    rewrite H8, H7, H6, H5, H4, H3, H2, H1, H0. simpl.
    unfold NewDataHCompletionUPP.
    destruct (env_read_upp e =? NULL) eqn:Er; destruct (env_write_upp e =? NULL) eqn:Ew;
      simpl; rewrite H0, E0; simpl;
      match goal with
      | |- context [QTFileTrans_WriteDataCompletionProc _ _ _ _ ?S] => exists S
      end;
      (split; [reflexivity|]);
      (split; [constructor; simpl; rewrite ?Er, ?Ew; reflexivity|]);
      split; reflexivity.
  - simpl. rewrite H10, L, H9. simpl.
    rewrite H8, H7, H6, H5, H4, H3, H2, H1, H0. simpl.
    unfold NewDataHCompletionUPP.
    destruct (env_read_upp e =? NULL) eqn:Er; destruct (env_write_upp e =? NULL) eqn:Ew;
      simpl; rewrite H0, E0; simpl;
      match goal with
      | |- context [QTFileTrans_WriteDataCompletionProc _ _ _ _ ?S] => exists S
      end;
      (split; [reflexivity|]);
      (split; [constructor; simpl; rewrite ?Er, ?Ew; reflexivity|]);
      (split; [simpl; now rewrite fs_remove_absent | reflexivity]).
Qed.

End Setup.

(** ** Arithmetic of the machine integers *)

Lemma wrap32_small z : -2147483648 <= z <= long_max -> wrap32 z = z.
Proof.
  unfold wrap32, long_max. intros H.
  rewrite Z.mod_small; lia.
Qed.

Lemma to_UInt32_small z : 0 <= z <= long_max -> to_UInt32 z = z.
Proof.
  unfold to_UInt32, long_max. intros H.
  apply Z.mod_small; lia.
Qed.

Lemma expected_read_lengths_0 C : 0 < C -> expected_read_lengths 0 C = [].
Proof.
  intros HC. unfold expected_read_lengths.
  rewrite Z.div_0_l, Z.mod_0_l by lia. reflexivity.
Qed.

Lemma expected_read_lengths_step R C :
  0 < C -> 0 < R ->
  expected_read_lengths R C = Z.min C R :: expected_read_lengths (R - Z.min C R) C.
Proof.
  intros HC HR. unfold expected_read_lengths.
  destruct (Z.le_gt_cases C R) as [Hle | Hgt].
  - rewrite Z.min_l by lia.
    assert (Hd : R / C = (R - C) / C + 1).
    { replace R with ((R - C) + 1 * C) at 1 by lia. apply Z.div_add. lia. }
    assert (Hm : R mod C = (R - C) mod C).
    { replace R with ((R - C) + 1 * C) at 1 by lia. apply Z.mod_add. lia. }
    assert (0 <= (R - C) / C) by (apply Z.div_pos; lia).
    rewrite Hd, Hm.
    replace (Z.to_nat ((R - C) / C + 1)) with (S (Z.to_nat ((R - C) / C))) by lia.
    reflexivity.
  - rewrite Z.min_r by lia.
    rewrite Z.sub_diag, Z.div_0_l, Z.mod_0_l by lia.
    rewrite Z.div_small, Z.mod_small by lia.
    simpl. destruct (R =? 0) eqn:E; [apply Z.eqb_eq in E; lia | reflexivity].
Qed.

Lemma sum_app l1 l2 : sum (l1 ++ l2) = sum l1 + sum l2.
Proof.
  unfold sum. induction l1 as [|x l1 IH]; simpl; [reflexivity|].
  rewrite IH. lia.
Qed.

Lemma sum_repeat c n : sum (repeat c n) = Z.of_nat n * c.
Proof.
  unfold sum. induction n as [|n IH]; [reflexivity|].
  cbn [repeat fold_right]. rewrite IH. lia.
Qed.

Lemma sum_expected_read_lengths S C :
  0 < C -> 0 <= S -> sum (expected_read_lengths S C) = S.
Proof.
  intros HC HS. unfold expected_read_lengths.
  rewrite sum_app, sum_repeat.
  assert (0 <= S / C) by (apply Z.div_pos; lia).
  rewrite Z2Nat.id by lia.
  pose proof (Z.div_mod S C ltac:(lia)) as D.
  destruct (S mod C =? 0) eqn:E; unfold sum; simpl.
  - apply Z.eqb_eq in E. lia.
  - lia.
Qed.

Lemma read_lengths_app t1 t2 : read_lengths (t1 ++ t2) = read_lengths t1 ++ read_lengths t2.
Proof. apply flat_map_app. Qed.

Lemma write_lengths_app t1 t2 : write_lengths (t1 ++ t2) = write_lengths t1 ++ write_lengths t2.
Proof. apply flat_map_app. Qed.

Lemma no_io_read_lengths t : no_io t = true -> read_lengths t = [].
Proof.
  induction t as [|c t IH]; [reflexivity|].
  simpl. intros H. apply andb_prop in H. destruct H as [Hc Ht].
  rewrite (IH Ht). destruct c; simpl in *; try reflexivity; discriminate.
Qed.

Lemma no_io_write_lengths t : no_io t = true -> write_lengths t = [].
Proof.
  induction t as [|c t IH]; [reflexivity|].
  simpl. intros H. apply andb_prop in H. destruct H as [Hc Ht].
  rewrite (IH Ht). destruct c; simpl in *; try reflexivity; discriminate.
Qed.

(** ** The pipeline *)

Section Pipeline.

Variable kDataBufferSize : Z.
Hypothesis buffer_size_range : 0 < kDataBufferSize <= long_max.

(** The write-completion routine with more to do: one read of
    [min(kDataBufferSize, remaining)] bytes at the current offset. *)
Lemma write_completion_continues s buf n err :
  0 <= gBytesTransferred s + n < gBytesToTransfer s ->
  gBytesToTransfer s <= long_max ->
  QTFileTrans_WriteDataCompletionProc kDataBufferSize buf n err s =
  let t := gBytesTransferred s + n in
  let k := Z.min kDataBufferSize (gBytesToTransfer s - t) in
  DataHReadAsync (gDataReader s) buf k {| hi := 0; lo := t |}
                 (gReadDataHCompletionUPP s) k (set_gBytesTransferred t s).
Proof.
  intros HT HS. unfold QTFileTrans_WriteDataCompletionProc. cbv zeta.
  cbn [gBytesTransferred gBytesToTransfer set_gBytesTransferred gDataReader
       gReadDataHCompletionUPP].
  unfold long_max in *.
  rewrite (wrap32_small (gBytesTransferred s + n)) by (unfold long_max; lia).
  rewrite wrap32_small by (unfold long_max; lia).
  rewrite to_UInt32_small by (unfold long_max; lia).
  destruct (Z.ltb_spec (gBytesTransferred s + n) (gBytesToTransfer s)); [|lia].
  destruct (Z.gtb_spec (gBytesToTransfer s - (gBytesTransferred s + n)) kDataBufferSize).
  - rewrite Z.min_l by lia. reflexivity.
  - rewrite Z.min_r by lia. reflexivity.
Qed.

(** The write-completion routine with nothing left: the flag. *)
Lemma write_completion_finishes s buf n err :
  gBytesToTransfer s <= gBytesTransferred s + n <= long_max ->
  -2147483648 <= gBytesTransferred s + n ->
  QTFileTrans_WriteDataCompletionProc kDataBufferSize buf n err s =
  set_gDoneTransferring true (set_gBytesTransferred (gBytesTransferred s + n) s).
Proof.
  intros HT HS. unfold QTFileTrans_WriteDataCompletionProc. cbv zeta.
  cbn [gBytesTransferred gBytesToTransfer set_gBytesTransferred].
  rewrite wrap32_small by lia.
  destruct (Z.ltb_spec (gBytesTransferred s + n) (gBytesToTransfer s)); [lia|].
  reflexivity.
Qed.

Lemma deliver_read_completion s r rest actual err :
  outstanding s = r :: rest ->
  lookup_descriptor (req_completion r) (descriptors s) = Some ReadDataCompletionProc ->
  deliver kDataBufferSize actual err s =
  Some (QTFileTrans_ReadDataCompletionProc (req_buf r) (req_refCon r) err
          (set_outstanding rest s)).
Proof.
  intros Ho Hl. unfold deliver. rewrite Ho. cbn [descriptors set_outstanding].
  now rewrite Hl.
Qed.

Lemma deliver_write_completion s r rest actual err :
  outstanding s = r :: rest ->
  lookup_descriptor (req_completion r) (descriptors s) = Some WriteDataCompletionProc ->
  deliver kDataBufferSize actual err s =
  Some (QTFileTrans_WriteDataCompletionProc kDataBufferSize (req_buf r) (req_refCon r) err
          (set_outstanding rest s)).
Proof.
  intros Ho Hl. unfold deliver. rewrite Ho. cbn [descriptors set_outstanding].
  now rewrite Hl.
Qed.

(** After a write completion that brings the count to at most the
    total, the transfer is finished or one read is outstanding. *)
Lemma phase_after_write_completion total s buf n err :
  Linked total s ->
  outstanding s = [] ->
  gDoneTransferring s = false ->
  0 <= gBytesTransferred s + n <= total ->
  Linked total (QTFileTrans_WriteDataCompletionProc kDataBufferSize buf n err s)
  /\ Phase total (QTFileTrans_WriteDataCompletionProc kDataBufferSize buf n err s)
  /\ gBytesTransferred (QTFileTrans_WriteDataCompletionProc kDataBufferSize buf n err s)
     = gBytesTransferred s + n.
Proof.
  intros [Ht Hr Hlr Hlw] Ho Hd Hn.
  destruct (Z.eq_dec (gBytesTransferred s + n) total) as [Heq | Hne].
  - rewrite write_completion_finishes by (unfold long_max in *; lia).
    split; [constructor; assumption|].
    split; [|reflexivity].
    apply phase_done; simpl; auto.
  - rewrite write_completion_continues by lia. cbv zeta.
    split; [constructor; assumption|].
    split; [|reflexivity].
    eapply phase_reading; simpl.
    + rewrite Ho. reflexivity.
    + lia.
    + lia.
    + lia.
    + assumption.
Qed.

Lemma phase_step total s actual err s' :
  Linked total s -> Phase total s ->
  deliver kDataBufferSize actual err s = Some s' ->
  Linked total s' /\ Phase total s'
  /\ gBytesTransferred s <= gBytesTransferred s'.
Proof.
  intros HL HP Hd. pose proof HL as [Ht Hr Hlr Hlw].
  destruct HP as [Ho HT Hdone | buf k Ho Hk H0 HT Hdone | buf k Ho Hk H0 HT Hdone].
  - unfold deliver in Hd. rewrite Ho in Hd. discriminate.
  - rewrite (deliver_read_completion _ _ _ _ _ Ho Hlr) in Hd.
    injection Hd as <-. cbn [req_buf req_refCon].
    unfold QTFileTrans_ReadDataCompletionProc, DataHWrite. simpl.
    split; [constructor; assumption|].
    split; [|lia].
    eapply phase_writing; simpl; eauto.
  - rewrite (deliver_write_completion _ _ _ _ _ Ho Hlw) in Hd.
    injection Hd as <-. cbn [req_buf req_refCon].
    destruct (phase_after_write_completion total (set_outstanding [] s) buf k err)
      as (HL' & HP' & HT'); simpl; auto; try lia.
    + constructor; assumption.
    + split; [assumption|]. split; [assumption|].
      rewrite HT'. simpl. lia.
Qed.

(** The invariant of every state a started transfer passes through. *)
Lemma reachable_phase total s0 s :
  Linked total s0 -> Phase total s0 ->
  Reachable kDataBufferSize s0 s ->
  Linked total s /\ Phase total s.
Proof.
  intros HL HP HR. induction HR as [| s a err s' HR IH Hd].
  - split; assumption.
  - destruct IH as [HL' HP'].
    destruct (phase_step _ _ _ _ _ HL' HP' Hd) as (? & ? & _). split; assumption.
Qed.

Lemma phase_bounds total s :
  Linked total s -> Phase total s ->
  0 <= gBytesTransferred s <= total
  /\ gDoneTransferring s = (total <=? gBytesTransferred s).
Proof.
  intros [Ht Hr _ _] HP.
  destruct HP as [Ho HT Hdone | buf k Ho Hk H0 HT Hdone | buf k Ho Hk H0 HT Hdone].
  - rewrite Hdone, HT. split; [lia|]. symmetry. apply Z.leb_le. lia.
  - rewrite Hdone. split; [lia|]. symmetry. apply Z.leb_gt. lia.
  - rewrite Hdone. split; [lia|]. symmetry. apply Z.leb_gt. lia.
Qed.

(** The bootstrap call on a primed state starts the transfer. *)
Lemma primed_linked e s :
  Primed e s -> descriptors_made e = true -> 0 <= env_file_size e <= long_max ->
  Linked (env_file_size e) s.
Proof.
  intros P Hm Hs. unfold descriptors_made in Hm.
  apply andb_prop in Hm. destruct Hm as [Hm Hne].
  apply andb_prop in Hm. destruct Hm as [Hr Hw].
  apply negb_true_iff in Hr, Hw, Hne.
  constructor.
  - apply P.
  - assumption.
  - rewrite (primed_descriptors _ _ P), (primed_read_upp _ _ P), Hr, Hw. simpl.
    rewrite Z.eqb_sym, Hne, Z.eqb_refl. reflexivity.
  - rewrite (primed_descriptors _ _ P), (primed_write_upp _ _ P), Hr, Hw. simpl.
    rewrite Z.eqb_refl. reflexivity.
Qed.

Lemma bootstrap_phase e s :
  Primed e s -> descriptors_made e = true -> 0 <= env_file_size e <= long_max ->
  Linked (env_file_size e)
         (QTFileTrans_WriteDataCompletionProc kDataBufferSize (gDataBuffer s) 0 noErr s)
  /\ Phase (env_file_size e)
           (QTFileTrans_WriteDataCompletionProc kDataBufferSize (gDataBuffer s) 0 noErr s).
Proof.
  intros P Hm Hs.
  destruct (phase_after_write_completion (env_file_size e) s (gDataBuffer s) 0 noErr)
    as (HL & HP & _).
  - now apply primed_linked.
  - apply P.
  - apply P.
  - rewrite (primed_count _ _ P). lia.
  - split; assumption.
Qed.

Lemma run_idle fuel io s :
  outstanding s = [] -> run kDataBufferSize fuel io s = s.
Proof.
  intros Ho. destruct fuel; [reflexivity|].
  simpl. unfold deliver. now rewrite Ho.
Qed.

(** From a write completion onwards the completions carry the
    transfer to its end, reading the rest of the file in the expected
    pieces and writing it in the same pieces. *)
Lemma run_from_write_completion total :
  forall (m : nat) s buf n err fuel io,
    Linked total s ->
    outstanding s = [] ->
    0 <= gBytesTransferred s + n <= total ->
    (Z.to_nat (total - (gBytesTransferred s + n)) <= m)%nat ->
    (2 * List.length (expected_read_lengths (total - (gBytesTransferred s + n)) kDataBufferSize)
     <= fuel)%nat ->
    let sf := run kDataBufferSize fuel io
                  (QTFileTrans_WriteDataCompletionProc kDataBufferSize buf n err s) in
    outstanding sf = []
    /\ gDoneTransferring sf = true
    /\ gBytesTransferred sf = total
    /\ read_lengths (trace sf)
       = read_lengths (trace s)
         ++ expected_read_lengths (total - (gBytesTransferred s + n)) kDataBufferSize
    /\ write_lengths (trace sf)
       = write_lengths (trace s)
         ++ expected_read_lengths (total - (gBytesTransferred s + n)) kDataBufferSize.
Proof.
  induction m as [|m IH]; intros s buf n err fuel io HL Ho Hn Hm Hfuel sf; subst sf;
    pose proof HL as [Ht Hr Hlr Hlw];
    destruct (Z.eq_dec (gBytesTransferred s + n) total) as [Heq | Hne]; try lia.
  - rewrite write_completion_finishes by (unfold long_max in *; lia).
    rewrite run_idle by (simpl; assumption). simpl.
    replace (total - (gBytesTransferred s + n)) with 0 by lia.
    rewrite expected_read_lengths_0, !app_nil_r by lia. auto.
  - rewrite write_completion_finishes by (unfold long_max in *; lia).
    rewrite run_idle by (simpl; assumption). simpl.
    replace (total - (gBytesTransferred s + n)) with 0 by lia.
    rewrite expected_read_lengths_0, !app_nil_r by lia. auto.
  - rewrite expected_read_lengths_step in * by lia.
    rewrite write_completion_continues by lia. cbv zeta. rewrite Ht.
    set (t := gBytesTransferred s + n) in *.
    set (k := Z.min kDataBufferSize (total - t)) in *.
    destruct fuel as [|[|fuel]]; simpl in Hfuel; try lia.
    cbn [run].
    erewrite deliver_read_completion;
      [| unfold DataHReadAsync; simpl; rewrite Ho; reflexivity | simpl; assumption].
    erewrite deliver_write_completion;
      [| unfold QTFileTrans_ReadDataCompletionProc, DataHWrite; simpl; reflexivity
       | simpl; assumption].
    cbn [req_buf req_refCon].
    match goal with
    | |- context [run _ _ _ (QTFileTrans_WriteDataCompletionProc _ _ _ _ ?S)] =>
        specialize (IH S buf k (snd (io fuel)) fuel io)
    end.
    simpl in IH.
    replace (total - (t + k)) with (total - t - k) in IH by lia.
    destruct IH as (I1 & I2 & I3 & I4 & I5).
    + constructor; assumption.
    + reflexivity.
    + subst k. lia.
    + subst k. lia.
    + lia.
    + repeat split; try assumption.
      * rewrite I4, !read_lengths_app. simpl. rewrite !app_nil_r, <- app_assoc. reflexivity.
      * rewrite I5, !write_lengths_app. simpl. rewrite !app_nil_r, <- app_assoc. reflexivity.
Qed.

End Pipeline.

(** ** Properties of the transfer *)

(** C1. Chunking: once the set-up has gone through for a file of
    [S = env_file_size e] bytes and a buffer of [C = kDataBufferSize]
    bytes, delivering the completions (each carrying the count that
    was requested) ends the transfer, and the reads issued along the
    way have the lengths [C, ..., C, S mod C], the last one left out
    when [S mod C = 0]; they add up to [S], and the writes have the
    same lengths. *)
Theorem chunked_reads_cover_file :
  forall (kDataBufferSize : Z) e theURL spec vol fuel io,
    0 < kDataBufferSize <= long_max ->
    0 <= env_file_size e <= long_max ->
    setup_succeeds e theURL spec vol = true ->
    descriptors_made e = true ->
    (2 * List.length (expected_read_lengths (env_file_size e) kDataBufferSize) <= fuel)%nat ->
    let started :=
      QTFileTrans_CopyRemoteFileToLocalFile kDataBufferSize e theURL spec (initial_state vol) in
    let sf := run kDataBufferSize fuel io (snd started) in
    fst started = noErr
    /\ read_lengths (trace sf) = expected_read_lengths (env_file_size e) kDataBufferSize
    /\ sum (read_lengths (trace sf)) = env_file_size e
    /\ write_lengths (trace sf) = read_lengths (trace sf)
    /\ outstanding sf = []
    /\ gDoneTransferring sf = true
    /\ gBytesTransferred sf = env_file_size e.
Proof.
  intros C e theURL spec vol fuel io HC HS Hok Hmade Hfuel started sf.
  destruct (copy_success C e theURL spec vol Hok) as (s & Heq & P & _).
  subst sf started. rewrite Heq. cbn [fst snd].
  split; [reflexivity|].
  pose proof (primed_linked e s P Hmade HS) as HL.
  destruct (run_from_write_completion C HC (env_file_size e)
              (Z.to_nat (env_file_size e)) s (gDataBuffer s) 0 noErr fuel io HL)
    as (I1 & I2 & I3 & I4 & I5).
  - apply P.
  - rewrite (primed_count _ _ P). lia.
  - rewrite (primed_count _ _ P). lia.
  - rewrite (primed_count _ _ P). simpl. rewrite Z.sub_0_r. assumption.
  - rewrite (primed_count _ _ P) in I4, I5. simpl in I4, I5.
    rewrite Z.sub_0_r in I4, I5.
    rewrite (no_io_read_lengths _ (primed_quiet _ _ P)) in I4.
    rewrite (no_io_write_lengths _ (primed_quiet _ _ P)) in I5.
    simpl in I4, I5.
    rewrite I4, I5.
    repeat split; try assumption.
    apply sum_expected_read_lengths; lia.
Qed.

(** The sample scenario: 10,000 bytes through a 4,096-byte buffer are
    read as 4096, 4096, 1808. *)
Lemma chunked_reads_cover_file_sample :
  read_lengths (trace (run 4096 6 sample_io sample_start)) = [4096; 4096; 1808]
  /\ sum (read_lengths (trace (run 4096 6 sample_io sample_start))) = 10000
  /\ write_lengths (trace (run 4096 6 sample_io sample_start)) = [4096; 4096; 1808]
  /\ gBytesTransferred (run 4096 6 sample_io sample_start) = 10000.
Proof.
  destruct (chunked_reads_cover_file 4096 sample_env "http://host/file"%string "copy"%string []
              6%nat sample_io) as (_ & R & T & W & _ & _ & B).
  - unfold long_max. lia.
  - unfold long_max. simpl. lia.
  - vm_compute. reflexivity.
  - vm_compute. reflexivity.
  - vm_compute. lia.
  - split; [exact R|]. split; [exact T|]. split; [|exact B].
    rewrite W. exact R.
Defined.

(** C4. Monotonicity: in every state a started transfer passes
    through, [gBytesTransferred] lies between 0 and
    [gBytesToTransfer], and no completion makes it smaller. *)
Theorem transferred_bytes_monotone_bounded :
  forall (kDataBufferSize : Z) e theURL spec vol,
    0 < kDataBufferSize <= long_max ->
    0 <= env_file_size e <= long_max ->
    setup_succeeds e theURL spec vol = true ->
    descriptors_made e = true ->
    let s0 := snd (QTFileTrans_CopyRemoteFileToLocalFile kDataBufferSize e theURL spec
                     (initial_state vol)) in
    gBytesTransferred s0 = 0
    /\ forall s,
        Reachable kDataBufferSize s0 s ->
        gBytesToTransfer s = env_file_size e
        /\ 0 <= gBytesTransferred s <= gBytesToTransfer s
        /\ forall actual err s',
            deliver kDataBufferSize actual err s = Some s' ->
            gBytesTransferred s <= gBytesTransferred s'.
Proof.
  intros C e theURL spec vol HC HS Hok Hmade s0.
  destruct (copy_success C e theURL spec vol Hok) as (sp & Heq & P & _).
  subst s0. rewrite Heq. cbn [snd].
  destruct (bootstrap_phase C HC e sp P Hmade HS) as [HL0 HP0].
  split.
  - destruct (phase_after_write_completion C HC (env_file_size e) sp (gDataBuffer sp) 0 noErr)
      as (_ & _ & HT).
    + now apply primed_linked.
    + apply P.
    + apply P.
    + rewrite (primed_count _ _ P). lia.
    + rewrite HT, (primed_count _ _ P). reflexivity.
  - intros s HR.
    destruct (reachable_phase C HC _ _ _ HL0 HP0 HR) as [HL HP].
    destruct (phase_bounds _ _ HL HP) as [Hb _].
    rewrite (linked_total _ _ HL).
    repeat split; try lia.
    intros actual err s' Hd.
    now destruct (phase_step C HC _ _ _ _ _ HL HP Hd) as (_ & _ & ?).
Qed.

Lemma transferred_bytes_monotone_bounded_witness :
  Reachable 4096 sample_start (run 4096 2 sample_io sample_start)
  /\ gBytesToTransfer (run 4096 2 sample_io sample_start) = 10000
  /\ 0 <= gBytesTransferred (run 4096 2 sample_io sample_start) <= 10000
  /\ gBytesTransferred (run 4096 2 sample_io sample_start)
     <= gBytesTransferred (run 4096 3 sample_io sample_start).
Proof.
  assert (HR : Reachable 4096 sample_start (run 4096 2 sample_io sample_start)).
  { apply (reach_completion 4096 sample_start (run 4096 1 sample_io sample_start) 0 noErr).
    - apply (reach_completion 4096 sample_start sample_start 0 noErr).
      + apply reach_start.
      + vm_compute. reflexivity.
    - vm_compute. reflexivity. }
  split; [exact HR|].
  destruct (transferred_bytes_monotone_bounded 4096 sample_env
              "http://host/file"%string "copy"%string [])
    as [_ H].
  - unfold long_max. lia.
  - unfold long_max. simpl. lia.
  - vm_compute. reflexivity.
  - vm_compute. reflexivity.
  - destruct (H _ HR) as (T & B & M).
    split; [exact T|]. split; [exact B|].
    apply (M 0 noErr). vm_compute. reflexivity.
Defined.

(** C5. A zero-length file: with [gBytesToTransfer = 0] the bootstrap
    call sets [gDoneTransferring] and issues no read and no write,
    both as a call on its own and as the last step of
    [QTFileTrans_CopyRemoteFileToLocalFile]. *)
Theorem empty_file_done_at_once :
  forall (kDataBufferSize : Z),
    (forall s buf,
        gBytesToTransfer s = 0 ->
        gBytesTransferred s = 0 ->
        gDoneTransferring
          (QTFileTrans_WriteDataCompletionProc kDataBufferSize buf 0 noErr s) = true
        /\ trace (QTFileTrans_WriteDataCompletionProc kDataBufferSize buf 0 noErr s) = trace s
        /\ outstanding (QTFileTrans_WriteDataCompletionProc kDataBufferSize buf 0 noErr s)
           = outstanding s)
    /\ (forall e theURL spec vol,
           setup_succeeds e theURL spec vol = true ->
           env_file_size e = 0 ->
           let started :=
             QTFileTrans_CopyRemoteFileToLocalFile kDataBufferSize e theURL spec
               (initial_state vol) in
           fst started = noErr
           /\ gDoneTransferring (snd started) = true
           /\ outstanding (snd started) = []
           /\ no_io (trace (snd started)) = true).
Proof.
  intros C.
  assert (Hboot : forall s buf,
             gBytesToTransfer s = 0 ->
             gBytesTransferred s = 0 ->
             QTFileTrans_WriteDataCompletionProc C buf 0 noErr s
             = set_gDoneTransferring true (set_gBytesTransferred 0 s)).
  { intros s buf HS HT. unfold QTFileTrans_WriteDataCompletionProc. cbv zeta.
    cbn [gBytesTransferred gBytesToTransfer set_gBytesTransferred].
    rewrite HS, HT. reflexivity. }
  split.
  - intros s buf HS HT. rewrite (Hboot s buf HS HT). simpl. auto.
  - intros e theURL spec vol Hok Hsize started.
    destruct (copy_success C e theURL spec vol Hok) as (s & Heq & P & _).
    subst started. rewrite Heq. cbn [fst snd].
    rewrite Hboot.
    + simpl. split; [reflexivity|]. split; [reflexivity|].
      split; [apply P | apply P].
    + rewrite (primed_total _ _ P). assumption.
    + apply P.
Qed.

Lemma empty_file_done_at_once_witness :
  gDoneTransferring
    (snd (QTFileTrans_CopyRemoteFileToLocalFile 4096 empty_env
            "http://host/empty"%string "copy"%string (initial_state []))) = true
  /\ no_io (trace
       (snd (QTFileTrans_CopyRemoteFileToLocalFile 4096 empty_env
               "http://host/empty"%string "copy"%string (initial_state [])))) = true
  /\ gDoneTransferring
       (QTFileTrans_WriteDataCompletionProc 4096 3000 0 noErr (initial_state [])) = true.
Proof.
  destruct (empty_file_done_at_once 4096) as [Hcall Hcopy].
  destruct (Hcopy empty_env "http://host/empty"%string "copy"%string []) as (_ & D & _ & Q).
  - vm_compute. reflexivity.
  - reflexivity.
  - split; [exact D|]. split; [exact Q|].
    destruct (Hcall (initial_state []) 3000) as (D' & _ & _).
    + reflexivity.
    + reflexivity.
    + exact D'.
Defined.

(** C6. The error code handed to a completion routine changes
    nothing: with the same buffer, count and state, any two error
    codes give the same state, the same trace of calls and the same
    outstanding requests, for the read routine, the write routine and
    the delivery of a completion. *)
Theorem completion_error_ignored :
  forall (kDataBufferSize : Z) (theRequest : Ptr) (n : Z) (e1 e2 : OSErr) (s : State),
    QTFileTrans_ReadDataCompletionProc theRequest n e1 s
    = QTFileTrans_ReadDataCompletionProc theRequest n e2 s
    /\ QTFileTrans_WriteDataCompletionProc kDataBufferSize theRequest n e1 s
       = QTFileTrans_WriteDataCompletionProc kDataBufferSize theRequest n e2 s
    /\ forall actual,
        deliver kDataBufferSize actual e1 s = deliver kDataBufferSize actual e2 s.
Proof.
  intros C buf n e1 e2 s.
  split; [reflexivity|]. split; [reflexivity|].
  intros actual. unfold deliver.
  destruct (outstanding s) as [|r rest]; [reflexivity|].
  destruct (lookup_descriptor _ _) as [[|]|]; reflexivity.
Qed.

(** C7. The flag: in every state a started transfer passes through,
    [gDoneTransferring] is false while [gBytesTransferred] is below
    [gBytesToTransfer] and true once the two are equal; the completion
    that sets it is a write completion; and no completion routine,
    in any state, clears it. *)
Theorem done_flag_tracks_transfer :
  forall (kDataBufferSize : Z) e theURL spec vol,
    0 < kDataBufferSize <= long_max ->
    0 <= env_file_size e <= long_max ->
    setup_succeeds e theURL spec vol = true ->
    descriptors_made e = true ->
    let s0 := snd (QTFileTrans_CopyRemoteFileToLocalFile kDataBufferSize e theURL spec
                     (initial_state vol)) in
    (forall s,
        Reachable kDataBufferSize s0 s ->
        (gBytesTransferred s < gBytesToTransfer s -> gDoneTransferring s = false)
        /\ (gBytesTransferred s = gBytesToTransfer s -> gDoneTransferring s = true)
        /\ forall actual err s',
            deliver kDataBufferSize actual err s = Some s' ->
            gDoneTransferring s' = true ->
            gBytesTransferred s' = gBytesToTransfer s'
            /\ exists r rest, outstanding s = r :: rest /\ req_kind r = WriteRequest)
    /\ (forall s theRequest n err,
           gDoneTransferring s = true ->
           gDoneTransferring (QTFileTrans_ReadDataCompletionProc theRequest n err s) = true
           /\ gDoneTransferring
                (QTFileTrans_WriteDataCompletionProc kDataBufferSize theRequest n err s) = true)
    /\ (forall s actual err s',
           gDoneTransferring s = true ->
           deliver kDataBufferSize actual err s = Some s' ->
           gDoneTransferring s' = true).
Proof.
  intros C e theURL spec vol HC HS Hok Hmade s0.
  assert (Hkeep : forall s theRequest n err,
             gDoneTransferring s = true ->
             gDoneTransferring (QTFileTrans_ReadDataCompletionProc theRequest n err s) = true
             /\ gDoneTransferring
                  (QTFileTrans_WriteDataCompletionProc C theRequest n err s) = true).
  { intros s buf n err Hd. split; [exact Hd|].
    unfold QTFileTrans_WriteDataCompletionProc. cbv zeta.
    destruct (_ <? _); [exact Hd | reflexivity]. }
  split; [|split; [exact Hkeep|]].
  - destruct (copy_success C e theURL spec vol Hok) as (sp & Heq & P & _).
    subst s0. rewrite Heq. cbn [snd].
    destruct (bootstrap_phase C HC e sp P Hmade HS) as [HL0 HP0].
    intros s HR.
    destruct (reachable_phase C HC _ _ _ HL0 HP0 HR) as [HL HP].
    destruct (phase_bounds _ _ HL HP) as [Hb Hflag].
    rewrite (linked_total _ _ HL).
    split; [|split].
    + intros Hlt. rewrite Hflag. apply Z.leb_gt. exact Hlt.
    + intros Heq'. rewrite Hflag. apply Z.leb_le. lia.
    + intros actual err s' Hd Hdone'.
      destruct (phase_step C HC _ _ _ _ _ HL HP Hd) as (HL' & HP' & _).
      destruct (phase_bounds _ _ HL' HP') as [Hb' Hflag'].
      rewrite (linked_total _ _ HL').
      rewrite Hflag' in Hdone'. apply Z.leb_le in Hdone'.
      split; [lia|].
      destruct HP as [Ho HT Hdn | buf k Ho Hk H0 HT Hdn | buf k Ho Hk H0 HT Hdn].
      * unfold deliver in Hd. rewrite Ho in Hd. discriminate.
      * exfalso.
        rewrite (deliver_read_completion C _ _ _ actual err Ho (linked_read _ _ HL)) in Hd.
        injection Hd as <-. simpl in Hdone'. lia.
      * eexists. eexists. split; [exact Ho | reflexivity].
  - intros s actual err s' Hd Hdl. unfold deliver in Hdl.
    destruct (outstanding s) as [|r rest]; [discriminate|].
    destruct (lookup_descriptor _ _) as [[|]|]; injection Hdl as <-.
    + apply Hkeep. exact Hd.
    + apply Hkeep. exact Hd.
    + exact Hd.
Qed.

Lemma done_flag_tracks_transfer_witness :
  Reachable 4096 sample_start (run 4096 2 sample_io sample_start)
  /\ gBytesTransferred (run 4096 2 sample_io sample_start)
     < gBytesToTransfer (run 4096 2 sample_io sample_start)
  /\ gDoneTransferring (run 4096 2 sample_io sample_start) = false.
Proof.
  assert (HR : Reachable 4096 sample_start (run 4096 2 sample_io sample_start)).
  { apply (reach_completion 4096 sample_start (run 4096 1 sample_io sample_start) 0 noErr).
    - apply (reach_completion 4096 sample_start sample_start 0 noErr).
      + apply reach_start.
      + vm_compute. reflexivity.
    - vm_compute. reflexivity. }
  assert (HT : gBytesTransferred (run 4096 2 sample_io sample_start)
               < gBytesToTransfer (run 4096 2 sample_io sample_start)).
  { vm_compute. reflexivity. }
  split; [exact HR|]. split; [exact HT|].
  destruct (done_flag_tracks_transfer 4096 sample_env "http://host/file"%string "copy"%string [])
    as [H _].
  - unfold long_max. lia.
  - unfold long_max. simpl. lia.
  - vm_compute. reflexivity.
  - vm_compute. reflexivity.
  - destruct (H _ HR) as (F & _ & _). apply F. exact HT.
Defined.

(** C9. What a read completion schedules is a write of the count in
    its reference constant, tagged with the same count, and the write
    completion adds that count to [gBytesTransferred]; the number of
    bytes the read really moved, [actual], plays no part.  The count
    in the reference constant is the length the read was issued
    with. *)
Theorem write_follows_requested_length :
  forall (kDataBufferSize : Z) s r actual err s1,
    outstanding s = [r] ->
    req_kind r = ReadRequest ->
    lookup_descriptor (req_completion r) (descriptors s) = Some ReadDataCompletionProc ->
    lookup_descriptor (gWriteDataHCompletionUPP s) (descriptors s)
    = Some WriteDataCompletionProc ->
    deliver kDataBufferSize actual err s = Some s1 ->
    trace s1
    = trace s ++ [CallDataHWrite (gDataWriter s) (req_buf r) (gBytesTransferred s)
                                 (req_refCon r) (gWriteDataHCompletionUPP s) (req_refCon r)]
    /\ outstanding s1
       = [{| req_kind := WriteRequest; req_buf := req_buf r; req_len := req_refCon r;
             req_completion := gWriteDataHCompletionUPP s; req_refCon := req_refCon r |}]
    /\ gBytesTransferred s1 = gBytesTransferred s
    /\ (forall actual' err', deliver kDataBufferSize actual' err' s = Some s1)
    /\ (forall actual2 err2,
           exists s2,
             deliver kDataBufferSize actual2 err2 s1 = Some s2
             /\ gBytesTransferred s2 = wrap32 (gBytesTransferred s + req_refCon r))
    /\ (forall s' theRequest n err',
           outstanding (QTFileTrans_WriteDataCompletionProc kDataBufferSize theRequest n err' s')
           = outstanding s'
           \/ exists k,
               outstanding
                 (QTFileTrans_WriteDataCompletionProc kDataBufferSize theRequest n err' s')
               = outstanding s'
                 ++ [{| req_kind := ReadRequest; req_buf := theRequest; req_len := k;
                        req_completion := gReadDataHCompletionUPP s'; req_refCon := k |}]).
Proof.
  intros C s r actual err s1 Ho Hk Hlr Hlw Hd.
  assert (Hany : forall a e,
             deliver C a e s
             = Some (QTFileTrans_ReadDataCompletionProc (req_buf r) (req_refCon r) e
                       (set_outstanding [] s))).
  { intros a e. unfold deliver. rewrite Ho. cbn [descriptors set_outstanding].
    rewrite Hlr. reflexivity. }
  rewrite Hany in Hd. injection Hd as <-.
  split; [reflexivity|]. split; [reflexivity|]. split; [reflexivity|].
  split; [intros a e; rewrite Hany; reflexivity|].
  split.
  - intros a2 e2. eexists. split.
    + unfold deliver, QTFileTrans_ReadDataCompletionProc, DataHWrite. simpl.
      rewrite Hlw. reflexivity.
    + unfold QTFileTrans_WriteDataCompletionProc. cbv zeta.
      destruct (_ <? _)%Z; reflexivity.
  - intros s' buf n err'. unfold QTFileTrans_WriteDataCompletionProc. cbv zeta.
    destruct (_ <? _)%Z.
    + right. eexists. reflexivity.
    + left. reflexivity.
Qed.

(** A short read: the URL data handler delivers 100 of the 4,096
    bytes asked for; 4,096 bytes are written and counted all the same. *)
Lemma write_follows_requested_length_witness :
  write_lengths (trace (run 4096 1 (fun _ => (100, noErr)) sample_start)) = [4096]
  /\ exists s2,
      deliver 4096 4096 noErr (run 4096 1 (fun _ => (100, noErr)) sample_start) = Some s2
      /\ gBytesTransferred s2 = 4096.
Proof.
  destruct (write_follows_requested_length 4096 sample_start
              {| req_kind := ReadRequest; req_buf := 3000; req_len := 4096;
                 req_completion := 4000; req_refCon := 4096 |}
              100 noErr (run 4096 1 (fun _ => (100, noErr)) sample_start))
    as (Ht & _ & _ & _ & H2 & _).
  - vm_compute. reflexivity.
  - reflexivity.
  - vm_compute. reflexivity.
  - vm_compute. reflexivity.
  - vm_compute. reflexivity.
  - split.
    + rewrite Ht. vm_compute. reflexivity.
    + destruct (H2 4096 noErr) as (s2 & D & T).
      exists s2. split; [exact D|].
      rewrite T. vm_compute. reflexivity.
Defined.

(** ** Closing down *)

Lemma closedown_effect s :
  trace (QTFileTrans_CloseDownHandlers s) = trace s ++ closedown_calls s
  /\ gDataReader (QTFileTrans_CloseDownHandlers s) = NULL
  /\ gDataWriter (QTFileTrans_CloseDownHandlers s) = NULL
  /\ gDataBuffer (QTFileTrans_CloseDownHandlers s) = gDataBuffer s
  /\ gReadDataHCompletionUPP (QTFileTrans_CloseDownHandlers s) = gReadDataHCompletionUPP s
  /\ gWriteDataHCompletionUPP (QTFileTrans_CloseDownHandlers s) = gWriteDataHCompletionUPP s
  /\ gDoneTransferring (QTFileTrans_CloseDownHandlers s) = gDoneTransferring s.
Proof.
  destruct s as [buf rd wr ru wu total count done ds out vol t].
  unfold QTFileTrans_CloseDownHandlers, closedown_calls.
  cbn [gDataReader gDataWriter gDataBuffer gReadDataHCompletionUPP gWriteDataHCompletionUPP].
  destruct (rd =? NULL) eqn:E1; cbn -[Z.eqb];
    destruct (wr =? NULL) eqn:E2; cbn -[Z.eqb];
    destruct (buf =? NULL) eqn:E3; cbn -[Z.eqb];
    destruct (ru =? NULL) eqn:E4; cbn -[Z.eqb];
    destruct (wu =? NULL) eqn:E5; cbn -[Z.eqb];
    rewrite ?app_nil_r, <- ?app_assoc; cbn -[Z.eqb];
    repeat split; try reflexivity; apply Z.eqb_eq; assumption.
Qed.

Lemma closedown_outstanding s :
  outstanding (QTFileTrans_CloseDownHandlers s) = outstanding s.
Proof.
  destruct s as [buf rd wr ru wu total count done ds out vol t].
  unfold QTFileTrans_CloseDownHandlers.
  cbn [gDataReader gDataWriter gDataBuffer gReadDataHCompletionUPP gWriteDataHCompletionUPP].
  destruct (rd =? NULL); cbn -[Z.eqb];
    destruct (wr =? NULL); cbn -[Z.eqb];
    destruct (buf =? NULL); cbn -[Z.eqb];
    destruct (ru =? NULL); cbn -[Z.eqb];
    destruct (wu =? NULL); reflexivity.
Qed.

Lemma closedown_calls_no_io s : no_io (closedown_calls s) = true.
Proof.
  unfold closedown_calls.
  repeat (rewrite no_io_app; apply andb_true_intro; split);
    break_if; reflexivity.
Qed.

(** C10. After [QTFileTrans_CloseDownHandlers], [gDataReader] and
    [gDataWriter] are [NULL], so the guarded [DataHTask] calls of the
    event loop are skipped and the loop does no I/O; [gDataBuffer] and
    the two routine descriptors keep their values, and where they were
    not [NULL] they have been disposed of and are still not [NULL]. *)
Theorem closedown_clears_handlers_only :
  forall (s : State),
    gDataReader (QTFileTrans_CloseDownHandlers s) = NULL
    /\ gDataWriter (QTFileTrans_CloseDownHandlers s) = NULL
    /\ (exists calls,
          trace (event_loop_step (QTFileTrans_CloseDownHandlers s))
          = trace (QTFileTrans_CloseDownHandlers s) ++ calls
          /\ no_io calls = true)
    /\ gDataBuffer (QTFileTrans_CloseDownHandlers s) = gDataBuffer s
    /\ gReadDataHCompletionUPP (QTFileTrans_CloseDownHandlers s) = gReadDataHCompletionUPP s
    /\ gWriteDataHCompletionUPP (QTFileTrans_CloseDownHandlers s)
       = gWriteDataHCompletionUPP s
    /\ exists calls,
        trace (QTFileTrans_CloseDownHandlers s) = trace s ++ calls
        /\ (gDataBuffer s <> NULL ->
            In (CallDisposePtr (gDataBuffer s)) calls
            /\ gDataBuffer (QTFileTrans_CloseDownHandlers s) <> NULL)
        /\ (gReadDataHCompletionUPP s <> NULL ->
            In (CallDisposeDataHCompletionUPP (gReadDataHCompletionUPP s)) calls
            /\ gReadDataHCompletionUPP (QTFileTrans_CloseDownHandlers s) <> NULL)
        /\ (gWriteDataHCompletionUPP s <> NULL ->
            In (CallDisposeDataHCompletionUPP (gWriteDataHCompletionUPP s)) calls
            /\ gWriteDataHCompletionUPP (QTFileTrans_CloseDownHandlers s) <> NULL).
Proof.
  intros s.
  destruct (closedown_effect s) as (Ht & Hr & Hw & Hb & Hru & Hwu & Hd).
  split; [exact Hr|]. split; [exact Hw|].
  split.
  { unfold event_loop_step.
    set (s1 := QTFileTrans_CloseDownHandlers s) in *.
    destruct (closedown_effect s1) as (Ht1 & Hr1 & Hw1 & _).
    cbv zeta. destruct (gDoneTransferring s1).
    - rewrite Hr1. cbn [Z.eqb NULL negb]. rewrite Hw1. cbn [Z.eqb NULL negb].
      exists (closedown_calls s1).
      split; [exact Ht1 | apply closedown_calls_no_io].
    - rewrite Hr. cbn [Z.eqb NULL negb]. rewrite Hw. cbn [Z.eqb NULL negb].
      exists []. split; [now rewrite app_nil_r | reflexivity]. }
  split; [exact Hb|]. split; [exact Hru|]. split; [exact Hwu|].
  exists (closedown_calls s). split; [exact Ht|].
  rewrite Hb, Hru, Hwu. unfold closedown_calls.
  split; [|split]; intros Hn; (split; [|exact Hn]);
    apply Z.eqb_neq in Hn; rewrite !in_app_iff, Hn; simpl; tauto.
Qed.

Lemma closedown_clears_handlers_only_witness :
  gDataReader (QTFileTrans_CloseDownHandlers (run 4096 6 sample_io sample_start)) = NULL
  /\ gDataBuffer (QTFileTrans_CloseDownHandlers (run 4096 6 sample_io sample_start)) <> NULL
  /\ gReadDataHCompletionUPP
       (QTFileTrans_CloseDownHandlers (run 4096 6 sample_io sample_start)) <> NULL
  /\ gWriteDataHCompletionUPP
       (QTFileTrans_CloseDownHandlers (run 4096 6 sample_io sample_start)) <> NULL.
Proof.
  destruct (closedown_clears_handlers_only (run 4096 6 sample_io sample_start))
    as (Hr & _ & _ & _ & _ & _ & calls & _ & Hb & Hru & Hwu).
  split; [exact Hr|].
  split; [apply Hb; vm_compute; discriminate|].
  split; [apply Hru; vm_compute; discriminate|].
  apply Hwu; vm_compute; discriminate.
Defined.

(** What is sound in closing down: with nothing acquired it makes no
    call at all, and a component it has closed is never closed again. *)
Lemma closedown_initial vol :
  trace (QTFileTrans_CloseDownHandlers (initial_state vol)) = [].
Proof. reflexivity. Qed.

Lemma closedown_twice_closes_once s :
  exists calls,
    trace (QTFileTrans_CloseDownHandlers (QTFileTrans_CloseDownHandlers s))
    = trace (QTFileTrans_CloseDownHandlers s) ++ calls
    /\ existsb is_close_component calls = false.
Proof.
  set (s1 := QTFileTrans_CloseDownHandlers s).
  destruct (closedown_effect s) as (_ & Hr & Hw & _).
  destruct (closedown_effect s1) as (Ht1 & _).
  exists (closedown_calls s1). split; [exact Ht1|].
  unfold closedown_calls. fold s1 in Hr, Hw. rewrite Hr, Hw. simpl.
  repeat break_if; reflexivity.
Qed.

(** The buffer, though: a second closing down disposes of it again. *)
Lemma closedown_twice_disposes_again s :
  gDataBuffer s <> NULL ->
  exists calls1 calls2,
    trace (QTFileTrans_CloseDownHandlers (QTFileTrans_CloseDownHandlers s))
    = (trace s ++ calls1) ++ calls2
    /\ In (CallDisposePtr (gDataBuffer s)) calls1
    /\ In (CallDisposePtr (gDataBuffer s)) calls2.
Proof.
  intros Hn.
  set (s1 := QTFileTrans_CloseDownHandlers s).
  destruct (closedown_effect s) as (Ht & _ & _ & Hb & _).
  destruct (closedown_effect s1) as (Ht1 & _).
  fold s1 in Ht, Hb.
  exists (closedown_calls s), (closedown_calls s1).
  rewrite Ht1, Ht. split; [reflexivity|].
  apply Z.eqb_neq in Hn.
  unfold closedown_calls. rewrite Hb, !in_app_iff, Hn. simpl. tauto.
Qed.

(** C3. Closing down twice after a finished transfer: the data buffer
    allocated once by [NewPtrClear] is handed to [DisposePtr] twice,
    and each routine descriptor to [DisposeDataHCompletionUPP] twice;
    the two components are closed once. *)
Theorem closedown_twice_double_dispose :
  let finished := run 4096 6 sample_io sample_start in
  let closed_twice := QTFileTrans_CloseDownHandlers (QTFileTrans_CloseDownHandlers finished) in
  gDoneTransferring finished = true
  /\ gDataBuffer finished = 3000
  /\ count_calls (is_dispose_ptr 3000) (trace finished) = 0%nat
  /\ count_calls (is_dispose_ptr 3000) (trace closed_twice) = 2%nat
  /\ count_calls (is_dispose_upp 4000) (trace closed_twice) = 2%nat
  /\ count_calls (is_dispose_upp 4004) (trace closed_twice) = 2%nat
  /\ count_calls is_close_component (trace closed_twice) = 4%nat.
Proof.
  vm_compute. repeat split.
Qed.

(** ** Failures during set-up *)

Ltac setup_cbn :=
  cbn -[Z.eqb wrap32 QTFileTrans_WriteDataCompletionProc NewDataHCompletionUPP fs_lookup
        fs_remove Noticed].

Ltac setup_paths :=
  unfold QTFileTrans_setup, NewHandleClear, BlockMove, FSpDelete, FSpCreate, QTNewAlias,
    OpenComponent, DataHSetDataRef, NewPtrClear, DataHOpenForRead, DataHGetFileSize,
    DataHOpenForWrite;
  setup_cbn.

Ltac setup_step H :=
  first
    [ rewrite fs_lookup_remove
    | match goal with
      | L : fs_lookup ?sp ?v = _ |- context [fs_lookup ?sp ?v] => rewrite L
      end
    | match goal with
      | |- context [fs_lookup ?sp ?v] =>
          let L := fresh "L" in destruct (fs_lookup sp v) eqn:L; rewrite ?L in H
      end
    | match goal with
      | |- context [if negb ?c then _ else _] =>
          let E := fresh "E" in destruct c eqn:E; rewrite ?E in H
      end
    | match goal with
      | |- context [if ?c then _ else _] =>
          let E := fresh "E" in destruct c eqn:E; rewrite ?E in H
      end ];
  setup_cbn.

Ltac noticed H :=
  first
    [ discriminate H
    | match goal with
      | A : _ = true |- _ => discriminate A
      | A : _ = false |- _ => discriminate A
      end
    | match goal with
      | |- Noticed _ (_, _) =>
          unfold Noticed; cbn -[In env_error_codes];
          split;
          [ first [ discriminate
                  | apply Z.eqb_neq; assumption
                  | intros ?; discriminate ]
          | split;
            [ unfold env_error_codes; cbn [In];
              repeat (first [left; reflexivity | right])
            | split; reflexivity ] ]
      end ].

Section SetupFailure.

Variable kDataBufferSize : Z.

Lemma setup_failure_noticed e theURL spec vol :
  setup_succeeds e theURL spec vol = false ->
  env_reader e <> NULL ->
  env_writer e <> NULL ->
  Noticed e (QTFileTrans_setup kDataBufferSize e theURL spec (initial_state vol)).
Proof.
  intros Hfail Hrd Hwr. apply Z.eqb_neq in Hrd, Hwr.
  unfold setup_succeeds in Hfail. rewrite Hrd, Hwr in Hfail.
  setup_paths. rewrite ?Hrd, ?Hwr.
  repeat (setup_step Hfail; try noticed Hfail).
Qed.

(** So for such a failure [QTFileTrans_CopyRemoteFileToLocalFile]
    closes down before it returns, with no read or write scheduled and
    both components closed; and what it returns is an error whenever
    the toolbox's error codes are [OSErr] values. *)
Lemma copy_failure_closes_down e theURL spec vol :
  setup_succeeds e theURL spec vol = false ->
  env_reader e <> NULL ->
  env_writer e <> NULL ->
  exists myErr s,
    QTFileTrans_setup kDataBufferSize e theURL spec (initial_state vol) = (myErr, s)
    /\ myErr <> noErr
    /\ QTFileTrans_CopyRemoteFileToLocalFile kDataBufferSize e theURL spec (initial_state vol)
       = (to_OSErr myErr, QTFileTrans_CloseDownHandlers s)
    /\ no_io (trace (QTFileTrans_CloseDownHandlers s)) = true
    /\ outstanding (QTFileTrans_CloseDownHandlers s) = []
    /\ gDataReader (QTFileTrans_CloseDownHandlers s) = NULL
    /\ gDataWriter (QTFileTrans_CloseDownHandlers s) = NULL
    /\ (forallb is_OSErr (env_error_codes e) = true -> to_OSErr myErr <> noErr).
Proof.
  intros Hfail Hrd Hwr.
  pose proof (setup_failure_noticed e theURL spec vol Hfail Hrd Hwr) as (Hn & Hin & Hq & Ho).
  unfold QTFileTrans_CopyRemoteFileToLocalFile.
  destruct (QTFileTrans_setup kDataBufferSize e theURL spec (initial_state vol))
    as [myErr s].
  cbn [fst snd] in *.
  exists myErr, s. split; [reflexivity|]. split; [exact Hn|].
  destruct (closedown_effect s) as (Ht & Hr & Hw & _).
  pose proof Hn as Hn'. apply Z.eqb_neq in Hn'. rewrite Hn'. cbn [negb].
  split; [reflexivity|].
  split; [rewrite Ht, no_io_app, Hq, closedown_calls_no_io; reflexivity|].
  split; [rewrite closedown_outstanding; exact Ho|].
  split; [exact Hr|]. split; [exact Hw|].
  intros Hrange.
  assert (Hsmall : -32768 <= myErr <= 32767).
  { destruct Hin as [<- | [<- | Hin]]; [unfold badComponentType; lia
                                       | unfold dupFNErr; lia |].
    rewrite forallb_forall in Hrange. specialize (Hrange _ Hin).
    unfold is_OSErr in Hrange. apply andb_prop in Hrange. destruct Hrange as [A B].
    apply Z.leb_le in A, B. lia. }
  rewrite (to_OSErr_small _ Hsmall). exact Hn.
Qed.

(** A data handler that cannot be opened, though, is not noticed
    through [myErr], which by then holds the [noErr] of [QTNewAlias]:
    the function returns [noErr] and closes nothing, leaving a reader
    that was opened open. *)
Lemma open_component_failure_unreported e theURL spec vol :
  reaches_open e theURL spec vol = true ->
  env_reader e = NULL \/ env_writer e = NULL ->
  fst (QTFileTrans_CopyRemoteFileToLocalFile kDataBufferSize e theURL spec (initial_state vol))
  = noErr
  /\ count_calls is_close_component
       (trace (snd (QTFileTrans_CopyRemoteFileToLocalFile kDataBufferSize e theURL spec
                      (initial_state vol)))) = 0%nat
  /\ gDataReader
       (snd (QTFileTrans_CopyRemoteFileToLocalFile kDataBufferSize e theURL spec
               (initial_state vol))) = env_reader e.
Proof.
  unfold reaches_open. intros H Hnull.
  repeat (apply andb_prop in H; destruct H as [H ?]).
  repeat match goal with
         | A : negb _ = true |- _ => apply negb_true_iff in A
         end.
  assert (Ea : env_alias_err e = noErr) by now apply Z.eqb_eq.
  unfold QTFileTrans_CopyRemoteFileToLocalFile.
  setup_paths. rewrite H, H4.
  destruct (fs_lookup spec vol) eqn:L.
  - rewrite H3. setup_cbn. rewrite H2, fs_lookup_remove, H1. setup_cbn. rewrite H0.
    setup_cbn.
    destruct (env_reader e =? NULL) eqn:Er.
    + rewrite Ea. cbn. repeat split.
    + destruct Hnull as [Hn | Hn]; [apply Z.eqb_neq in Er; contradiction|].
      rewrite Hn. rewrite Ea. cbn. repeat split.
  - setup_cbn. rewrite H2, L, H1. setup_cbn. rewrite H0. setup_cbn.
    destruct (env_reader e =? NULL) eqn:Er.
    + rewrite Ea. cbn. repeat split.
    + destruct Hnull as [Hn | Hn]; [apply Z.eqb_neq in Er; contradiction|].
      rewrite Hn. rewrite Ea. cbn. repeat split.
Qed.

End SetupFailure.

(** C2. When [OpenComponent] fails for the HFS data handler the
    function returns [noErr], makes none of the closing calls, leaves
    the URL data handler open and [gDoneTransferring] false with
    nothing scheduled; when it fails for the URL data handler the
    function returns [noErr] as well. *)
Theorem open_failure_returns_noErr :
  QTFileTrans_CopyRemoteFileToLocalFile 4096 no_writer_env "http://host/file"%string
    "copy"%string (initial_state [])
  = (noErr,
     {| gDataBuffer := NULL; gDataReader := 2000; gDataWriter := NULL;
        gReadDataHCompletionUPP := NULL; gWriteDataHCompletionUPP := NULL;
        gBytesToTransfer := 0; gBytesTransferred := 0; gDoneTransferring := false;
        descriptors := []; outstanding := []; volume := [("copy"%string, [])];
        trace := [CallNewHandleClear 17 1000; CallBlockMove 1000 17;
                  CallFSpDelete "copy"%string; CallNewHandleClear 4 1004;
                  CallFSpCreate "copy"%string 0; CallQTNewAlias "copy"%string 0;
                  CallOpenComponent URLDataHandler 2000;
                  CallOpenComponent AliasDataHandler 0] |})
  /\ fst (QTFileTrans_CopyRemoteFileToLocalFile 4096 no_reader_env "http://host/file"%string
            "copy"%string (initial_state [])) = noErr
  /\ count_calls is_close_component
       (trace (snd (QTFileTrans_CopyRemoteFileToLocalFile 4096 no_reader_env
                      "http://host/file"%string "copy"%string (initial_state [])))) = 0%nat.
Proof.
  vm_compute. repeat split.
Qed.

(** ** The destination file *)

Lemma preceded_sound p q t :
  preceded p q t = true ->
  forall pre c post, t = pre ++ c :: post -> q c = true -> existsb p pre = true.
Proof.
  induction t as [|a t IH]; intros H pre c post Heq Hq.
  - destruct pre; discriminate.
  - simpl in H. destruct (q a) eqn:Qa; [discriminate|].
    destruct pre as [|b pre]; simpl in Heq; injection Heq as -> ->.
    + congruence.
    + simpl. destruct (p b) eqn:Pb; [reflexivity|].
      simpl. eapply IH; eauto.
Qed.

Lemma preceded_app p q t t' :
  preceded p q t = true -> existsb q t' = false -> preceded p q (t ++ t') = true.
Proof.
  intros H Hq. induction t as [|a t IH]; simpl in *.
  - induction t' as [|b t' IH']; [reflexivity|].
    simpl in *. apply orb_false_elim in Hq. destruct Hq as [Hb Ht'].
    rewrite Hb. destruct (p b); auto.
  - destruct (q a); [discriminate|]. destruct (p a); auto.
Qed.

Lemma existsb_app_true {A} (f : A -> bool) l l' :
  existsb f (l ++ l') = true -> existsb f l' = false -> existsb f l = true.
Proof.
  rewrite existsb_app. intros H H'. rewrite H' in H. now rewrite orb_false_r in H.
Qed.

Lemma replaced_extend spec s s' calls :
  Replaced spec s ->
  trace s' = trace s ++ calls ->
  volume s' = volume s ->
  existsb (is_create spec) calls = false ->
  existsb is_open_write calls = false ->
  Replaced spec s'.
Proof.
  intros (H1 & H2 & H3) Ht Hv Hc Ho. unfold Replaced. rewrite Ht, Hv.
  split; [now apply preceded_app|].
  split; [now apply preceded_app|].
  intros Hex. apply H3. eapply existsb_app_true; eauto.
Qed.

Lemma closedown_volume s : volume (QTFileTrans_CloseDownHandlers s) = volume s.
Proof.
  destruct s as [buf rd wr ru wu total count done ds out vol t].
  unfold QTFileTrans_CloseDownHandlers.
  cbn [gDataReader gDataWriter gDataBuffer gReadDataHCompletionUPP gWriteDataHCompletionUPP].
  destruct (rd =? NULL); cbn -[Z.eqb];
    destruct (wr =? NULL); cbn -[Z.eqb];
    destruct (buf =? NULL); cbn -[Z.eqb];
    destruct (ru =? NULL); cbn -[Z.eqb];
    destruct (wu =? NULL); reflexivity.
Qed.

Lemma closedown_replaced spec s :
  Replaced spec s -> Replaced spec (QTFileTrans_CloseDownHandlers s).
Proof.
  intros H. destruct (closedown_effect s) as (Ht & _).
  apply (replaced_extend spec s _ (closedown_calls s) H Ht (closedown_volume s));
    unfold closedown_calls; repeat break_if; reflexivity.
Qed.

Lemma write_completion_replaced C spec s buf n err :
  Replaced spec s -> Replaced spec (QTFileTrans_WriteDataCompletionProc C buf n err s).
Proof.
  intros H. unfold QTFileTrans_WriteDataCompletionProc. cbv zeta.
  destruct (_ <? _)%Z.
  - eapply (replaced_extend spec s); [exact H | reflexivity | reflexivity | | ]; reflexivity.
  - eapply (replaced_extend spec s _ []); [exact H | | reflexivity | | ];
      try reflexivity.
    simpl. now rewrite app_nil_r.
Qed.

Ltac replaced_cbn :=
  cbn -[Z.eqb wrap32 QTFileTrans_WriteDataCompletionProc fs_lookup fs_remove ReplacedAt].

Ltac replaced_step :=
  first
    [ rewrite fs_lookup_remove
    | match goal with
      | L : fs_lookup ?sp ?v = _ |- context [fs_lookup ?sp ?v] => rewrite L
      end
    | match goal with
      | |- context [fs_lookup ?sp ?v] =>
          let L := fresh "L" in destruct (fs_lookup sp v) eqn:L
      end
    | match goal with
      | |- context [if negb ?c then _ else _] =>
          let E := fresh "E" in destruct c eqn:E
      end
    | match goal with
      | |- context [if ?c then _ else _] =>
          let E := fresh "E" in destruct c eqn:E
      end ];
  replaced_cbn.

Ltac replaced_compute :=
  unfold Replaced; cbn -[Z.eqb]; rewrite ?String.eqb_refl;
  repeat match goal with
         | A : (?x =? ?y) = _ |- context [?x =? ?y] => rewrite A
         end;
  cbn;
  split; [reflexivity | split; [reflexivity | first [intros; discriminate | reflexivity]]].

Ltac replaced_leaf :=
  match goal with
  | A : _ = true |- _ => discriminate A
  | A : _ = false |- _ => discriminate A
  | |- ReplacedAt _ (_, QTFileTrans_WriteDataCompletionProc _ _ _ _ _) =>
      unfold ReplacedAt; cbn [snd]; apply write_completion_replaced; replaced_compute
  | |- ReplacedAt _ (_, _) =>
      unfold ReplacedAt; cbn [snd]; replaced_compute
  end.

Section Destination.

Variable kDataBufferSize : Z.

Lemma setup_replaced e theURL spec vol :
  ReplacedAt spec (QTFileTrans_setup kDataBufferSize e theURL spec (initial_state vol)).
Proof.
  unfold QTFileTrans_setup, NewHandleClear, BlockMove, FSpDelete, FSpCreate, QTNewAlias,
    OpenComponent, DataHSetDataRef, NewPtrClear, DataHOpenForRead, DataHGetFileSize,
    DataHOpenForWrite, NewDataHCompletionUPP.
  replaced_cbn.
  repeat (replaced_step; try replaced_leaf).
Qed.

Lemma FSpDelete_deletable e spec s :
  deletable e spec (volume s) = true ->
  snd (FSpDelete e spec s)
  = set_volume (fs_remove spec (volume s)) (record (CallFSpDelete spec) s).
Proof.
  unfold deletable, FSpDelete. cbv zeta. cbn [volume record].
  destruct (fs_lookup spec (volume s)) eqn:L; intros H.
  - rewrite H. reflexivity.
  - rewrite (fs_remove_absent _ _ L). destruct s. reflexivity.
Qed.

(** Two disks that differ at most in what the old destination file
    holds (or, where [FSpDelete] can remove it, in whether it is
    there): the function returns the same code and leaves the same
    globals, requests and trace; where the old file can be removed,
    the two disks are the same as well once [FSpDelete] has been
    called. *)
Lemma copy_ignores_old_destination e theURL spec vol vol' :
  fs_remove spec vol' = fs_remove spec vol ->
  deletable e spec vol' = deletable e spec vol ->
  fst (QTFileTrans_CopyRemoteFileToLocalFile kDataBufferSize e theURL spec
         (initial_state vol'))
  = fst (QTFileTrans_CopyRemoteFileToLocalFile kDataBufferSize e theURL spec
           (initial_state vol))
  /\ set_volume []
       (snd (QTFileTrans_CopyRemoteFileToLocalFile kDataBufferSize e theURL spec
               (initial_state vol')))
     = set_volume []
         (snd (QTFileTrans_CopyRemoteFileToLocalFile kDataBufferSize e theURL spec
                 (initial_state vol)))
  /\ (deletable e spec vol = true ->
      existsb (is_delete spec)
         (trace (snd (QTFileTrans_CopyRemoteFileToLocalFile kDataBufferSize e theURL spec
                        (initial_state vol)))) = true ->
      QTFileTrans_CopyRemoteFileToLocalFile kDataBufferSize e theURL spec (initial_state vol')
      = QTFileTrans_CopyRemoteFileToLocalFile kDataBufferSize e theURL spec
          (initial_state vol)).
Proof.
  intros Heq Hsame.
  unfold QTFileTrans_CopyRemoteFileToLocalFile.
  unfold QTFileTrans_setup, NewHandleClear, BlockMove. cbv beta iota zeta.
  destruct (wrap32 (wrap32 (Z.of_nat (String.length theURL)) + 1) =? 0) eqn:E0.
  { cbn. split; [reflexivity|]. split; [reflexivity|]. intros; discriminate. }
  destruct (env_reader_ref e =? NULL) eqn:E1.
  { cbn. split; [reflexivity|]. split; [reflexivity|]. intros; discriminate. }
  destruct (deletable e spec vol) eqn:Hd.
  - (* the old file, if any, is removed *)
    rename Hsame into Hd'.
    match goal with
    | |- context [FSpDelete e spec (record ?c2 (record ?c1 (initial_state vol')))] =>
        pose proof (FSpDelete_deletable e spec (record c2 (record c1 (initial_state vol')))
                      Hd') as D';
        pose proof (FSpDelete_deletable e spec (record c2 (record c1 (initial_state vol)))
                      Hd) as D;
        destruct (FSpDelete e spec (record c2 (record c1 (initial_state vol')))) as [r' s'];
        destruct (FSpDelete e spec (record c2 (record c1 (initial_state vol)))) as [r s]
    end.
    cbn [snd volume record initial_state] in D, D'. rewrite Heq in D'.
    assert (Hs : s' = s) by (rewrite D, D'; reflexivity).
    clear D D'. subst s'.
    split; [reflexivity|]. split; [reflexivity|]. intros _ _. reflexivity.
  - (* the old file stays, and [FSpCreate] refuses *)
    unfold deletable in Hd, Hsame.
    destruct (fs_lookup spec vol) eqn:L; [|discriminate].
    destruct (fs_lookup spec vol') eqn:L'; [|discriminate].
    unfold FSpDelete, FSpCreate. cbv zeta. cbn [volume record initial_state].
    rewrite L, L', Hd. cbv beta iota.
    destruct (env_writer_ref e =? NULL) eqn:E2.
    + cbn. split; [reflexivity|]. split; [reflexivity|]. intros; discriminate.
    + cbn [volume record initial_state]. rewrite L, L'.
      cbn. split; [reflexivity|]. split; [reflexivity|]. intros; discriminate.
Qed.

End Destination.

(** C8. [QTFileTrans_CopyRemoteFileToLocalFile] calls [FSpDelete] on
    the destination before [FSpCreate], and opens the destination for
    writing only after a successful [FSpCreate], when the file on disk
    is the new, empty one.  [FSpDelete] answering [fnfErr] does not
    stop it.  What the old destination file held (and, where
    [FSpDelete] can remove it, whether there was one) makes no
    difference to the result, the globals, the requests or the trace,
    nor, once [FSpDelete] has removed it, to the disk. *)
Theorem destination_replaced_before_write :
  forall (kDataBufferSize : Z) e theURL spec vol,
    let copy := QTFileTrans_CopyRemoteFileToLocalFile kDataBufferSize e theURL spec in
    (forall pre c post,
        trace (snd (copy (initial_state vol))) = pre ++ c :: post ->
        is_create spec c = true ->
        existsb (is_delete spec) pre = true)
    /\ (forall pre c post,
           trace (snd (copy (initial_state vol))) = pre ++ c :: post ->
           is_open_write c = true ->
           existsb (is_created spec) pre = true)
    /\ (existsb is_open_write (trace (snd (copy (initial_state vol)))) = true ->
        fs_lookup spec (volume (snd (copy (initial_state vol)))) = Some [])
    /\ (fs_lookup spec vol = None ->
        forall s, fst (FSpDelete e spec (set_volume vol s)) = fnfErr)
    /\ (fs_lookup spec vol = None ->
        setup_succeeds e theURL spec vol = true ->
        fst (copy (initial_state vol)) = noErr
        /\ existsb is_open_write (trace (snd (copy (initial_state vol)))) = true)
    /\ (forall vol',
           fs_remove spec vol' = fs_remove spec vol ->
           deletable e spec vol' = deletable e spec vol ->
           fst (copy (initial_state vol')) = fst (copy (initial_state vol))
           /\ set_volume [] (snd (copy (initial_state vol')))
              = set_volume [] (snd (copy (initial_state vol)))
           /\ (deletable e spec vol = true ->
               existsb (is_delete spec) (trace (snd (copy (initial_state vol)))) = true ->
               copy (initial_state vol') = copy (initial_state vol))).
Proof.
  intros C e theURL spec vol copy. subst copy.
  assert (HR : Replaced spec
                 (snd (QTFileTrans_CopyRemoteFileToLocalFile C e theURL spec
                         (initial_state vol)))).
  { pose proof (setup_replaced C e theURL spec vol) as H.
    unfold ReplacedAt in H. unfold QTFileTrans_CopyRemoteFileToLocalFile.
    destruct (QTFileTrans_setup C e theURL spec (initial_state vol)) as [myErr s].
    cbn [snd] in *. destruct (negb (myErr =? noErr)); [|exact H].
    now apply closedown_replaced. }
  destruct HR as (H1 & H2 & H3).
  split; [exact (preceded_sound _ _ _ H1)|].
  split; [exact (preceded_sound _ _ _ H2)|].
  split; [exact H3|].
  split.
  { intros L s. unfold FSpDelete. cbv zeta. cbn [volume record set_volume].
    rewrite L. reflexivity. }
  split.
  { intros L Hok.
    destruct (copy_success C e theURL spec vol Hok) as (sp & Heq & _ & _ & Hopen).
    rewrite Heq. cbn [fst snd]. split; [reflexivity|].
    unfold QTFileTrans_WriteDataCompletionProc. cbv zeta.
    destruct (_ <? _)%Z; simpl; [|exact Hopen].
    rewrite existsb_app, Hopen. reflexivity. }
  intros vol' Heq Hd.
  exact (copy_ignores_old_destination C e theURL spec vol vol' Heq Hd).
Qed.

(** With the sample set-up: an old three-byte file at the destination,
    or none, and the outcome is the same down to the disk. *)
Lemma destination_replaced_before_write_witness :
  QTFileTrans_CopyRemoteFileToLocalFile 4096 sample_env "http://host/file"%string
    "copy"%string (initial_state [])
  = QTFileTrans_CopyRemoteFileToLocalFile 4096 sample_env "http://host/file"%string
      "copy"%string (initial_state [("copy"%string, [x01; x02; x03])])
  /\ fst (QTFileTrans_CopyRemoteFileToLocalFile 4096 sample_env "http://host/file"%string
            "copy"%string (initial_state [])) = noErr
  /\ fs_lookup "copy"%string
       (volume (snd (QTFileTrans_CopyRemoteFileToLocalFile 4096 sample_env
                       "http://host/file"%string "copy"%string
                       (initial_state [("copy"%string, [x01; x02; x03])])))) = Some [].
Proof.
  destruct (destination_replaced_before_write 4096 sample_env "http://host/file"%string
              "copy"%string [("copy"%string, [x01; x02; x03])])
    as (_ & _ & Hnew & _ & _ & Hsame).
  destruct (destination_replaced_before_write 4096 sample_env "http://host/file"%string
              "copy"%string [])
    as (_ & _ & _ & _ & Hfnf & _).
  split; [|split].
  - destruct (Hsame []) as (_ & _ & E).
    + vm_compute. reflexivity.
    + vm_compute. reflexivity.
    + apply E; vm_compute; reflexivity.
  - destruct Hfnf as [E _].
    + vm_compute. reflexivity.
    + vm_compute. reflexivity.
    + exact E.
  - apply Hnew. vm_compute. reflexivity.
Defined.

(** ** The books of a transfer *)

Lemma starts_app from l x :
  starts from (l ++ [x]) = starts from l ++ [from + sum l].
Proof.
  revert from. induction l as [|y l IH]; intros from.
  - simpl. unfold sum. simpl. now rewrite Z.add_0_r.
  - cbn [app starts]. rewrite IH. unfold sum. cbn [fold_right app].
    now rewrite Z.add_assoc.
Qed.

Lemma read_offsets_app t1 t2 : read_offsets (t1 ++ t2) = read_offsets t1 ++ read_offsets t2.
Proof. apply flat_map_app. Qed.

Lemma write_offsets_app t1 t2 :
  write_offsets (t1 ++ t2) = write_offsets t1 ++ write_offsets t2.
Proof. apply flat_map_app. Qed.

Lemma no_io_read_offsets t : no_io t = true -> read_offsets t = [].
Proof.
  induction t as [|c t IH]; [reflexivity|].
  simpl. intros H. apply andb_prop in H. destruct H as [Hc Ht].
  rewrite (IH Ht). destruct c; simpl in *; try reflexivity; discriminate.
Qed.

Lemma no_io_write_offsets t : no_io t = true -> write_offsets t = [].
Proof.
  induction t as [|c t IH]; [reflexivity|].
  simpl. intros H. apply andb_prop in H. destruct H as [Hc Ht].
  rewrite (IH Ht). destruct c; simpl in *; try reflexivity; discriminate.
Qed.

Lemma no_io_call_fits e C t : no_io t = true -> Forall (call_fits e C) t.
Proof.
  induction t as [|c t IH]; intros H; [constructor|].
  simpl in H. apply andb_prop in H. destruct H as [Hc Ht].
  constructor; [|auto].
  destruct c; simpl in *; try exact I; discriminate.
Qed.

Section Books.

Variable kDataBufferSize : Z.
Hypothesis buffer_size_range : 0 < kDataBufferSize <= long_max.

(** The books after a write completion of [n] bytes, given that they
    were in order for the [n] bytes not yet counted. *)
Lemma ledger_after_write_completion e total s n err :
  Linked total s ->
  outstanding s = [] ->
  0 <= gBytesTransferred s + n <= total ->
  gDataBuffer s = env_buffer e ->
  gDataReader s = env_reader e ->
  gDataWriter s = env_writer e ->
  gReadDataHCompletionUPP s = env_read_upp e ->
  gWriteDataHCompletionUPP s = env_write_upp e ->
  Forall (call_fits e kDataBufferSize) (trace s) ->
  sum (read_lengths (trace s)) = gBytesTransferred s + n ->
  sum (write_lengths (trace s)) = gBytesTransferred s + n ->
  read_lengths (trace s) = write_lengths (trace s) ->
  map lo (read_offsets (trace s)) = starts 0 (read_lengths (trace s)) ->
  write_offsets (trace s) = starts 0 (write_lengths (trace s)) ->
  Ledger e kDataBufferSize
         (QTFileTrans_WriteDataCompletionProc kDataBufferSize (env_buffer e) n err s).
Proof.
  intros HL Ho Hn Hb Hr Hw Hru Hwu Hc Hrs Hws Hm Hro Hwo.
  pose proof HL as [Ht Hrange _ _].
  destruct (Z.eq_dec (gBytesTransferred s + n) total) as [Heq | Hne].
  - rewrite write_completion_finishes by (unfold long_max in *; lia).
    constructor; simpl; try assumption.
    + rewrite Ho. constructor.
    + rewrite Ho. unfold sum at 2. simpl. lia.
    + rewrite Ho. unfold sum at 2. simpl. lia.
    + rewrite Ho. simpl. now rewrite app_nil_r.
  - rewrite write_completion_continues by (assumption || lia). cbv zeta.
    rewrite Ht.
    set (t := gBytesTransferred s + n) in *.
    set (k := Z.min kDataBufferSize (total - t)).
    assert (Hk : 0 < k <= kDataBufferSize) by (subst k; lia).
    unfold DataHReadAsync. cbv zeta.
    constructor; simpl; try assumption.
    + rewrite Ho. simpl. constructor; [|constructor]. simpl. split; [reflexivity | lia].
    + apply Forall_app. split; [assumption|].
      constructor; [|constructor]. simpl. repeat split; auto; lia.
    + rewrite Ho, read_lengths_app, sum_app, Hrs. unfold sum. simpl. lia.
    + rewrite Ho, write_lengths_app. simpl. rewrite app_nil_r, Hws.
      unfold sum. simpl. lia.
    + rewrite Ho, read_lengths_app, write_lengths_app. simpl.
      rewrite app_nil_r, Hm. reflexivity.
    + rewrite read_offsets_app, read_lengths_app, map_app. simpl.
      rewrite starts_app, Hro, Hrs. reflexivity.
    + rewrite write_offsets_app, write_lengths_app. simpl.
      rewrite !app_nil_r. assumption.
Qed.

Lemma ledger_step e total s actual err s' :
  Linked total s -> Phase total s -> Ledger e kDataBufferSize s ->
  deliver kDataBufferSize actual err s = Some s' ->
  Ledger e kDataBufferSize s'.
Proof.
  intros HL HP HB Hd. pose proof HL as [Ht Hrange Hlr Hlw].
  destruct HB as [Hb Hr Hw Hru Hwu Hq Hc Hrs Hws Hm Hro Hwo].
  destruct HP as [Ho HT Hdone | buf k Ho Hk H0 HT Hdone | buf k Ho Hk H0 HT Hdone].
  - unfold deliver in Hd. rewrite Ho in Hd. discriminate.
  - rewrite (deliver_read_completion _ _ _ _ _ _ Ho Hlr) in Hd.
    injection Hd as <-. cbn [req_buf req_refCon].
    rewrite Ho in Hq, Hrs, Hws, Hm. simpl in Hrs, Hws, Hm.
    apply Forall_inv in Hq. simpl in Hq. destruct Hq as [-> Hkc].
    unfold sum in Hrs, Hws. simpl in Hrs, Hws.
    unfold QTFileTrans_ReadDataCompletionProc, DataHWrite. cbv zeta.
    constructor; simpl; try assumption.
    + constructor; [|constructor]. simpl. split; [reflexivity | lia].
    + apply Forall_app. split; [assumption|].
      constructor; [|constructor]. simpl. repeat split; auto; lia.
    + rewrite read_lengths_app. simpl. rewrite app_nil_r.
      unfold sum. simpl. unfold sum in Hrs. lia.
    + rewrite write_lengths_app, sum_app. unfold sum. simpl. unfold sum in Hws. lia.
    + rewrite read_lengths_app, write_lengths_app. simpl.
      rewrite !app_nil_r. assumption.
    + rewrite read_offsets_app, read_lengths_app. simpl.
      rewrite !app_nil_r. assumption.
    + rewrite write_offsets_app, write_lengths_app. simpl.
      rewrite starts_app, Hwo. f_equal. f_equal. unfold sum in *. lia.
  - rewrite (deliver_write_completion _ _ _ _ _ _ Ho Hlw) in Hd.
    injection Hd as <-. cbn [req_buf req_refCon].
    rewrite Ho in Hq, Hrs, Hws, Hm. simpl in Hrs, Hws, Hm.
    apply Forall_inv in Hq. simpl in Hq. destruct Hq as [-> Hkc].
    unfold sum in Hrs, Hws. simpl in Hrs, Hws.
    rewrite app_nil_r in Hm.
    apply (ledger_after_write_completion e total); simpl; auto.
    + constructor; assumption.
    + lia.
    + unfold sum. lia.
    + unfold sum. lia.
Qed.

Lemma ledger_bootstrap e s :
  Primed e s -> descriptors_made e = true -> 0 <= env_file_size e <= long_max ->
  Ledger e kDataBufferSize
    (QTFileTrans_WriteDataCompletionProc kDataBufferSize (gDataBuffer s) 0 noErr s).
Proof.
  intros P Hm Hs.
  pose proof (primed_linked e s P Hm Hs) as HL.
  pose proof (primed_quiet _ _ P) as Hq.
  rewrite (primed_buffer _ _ P).
  apply (ledger_after_write_completion e (env_file_size e) s 0 noErr HL);
    try apply P.
  - rewrite (primed_count _ _ P). lia.
  - now apply no_io_call_fits.
  - rewrite (no_io_read_lengths _ Hq), (primed_count _ _ P). reflexivity.
  - rewrite (no_io_write_lengths _ Hq), (primed_count _ _ P). reflexivity.
  - now rewrite (no_io_read_lengths _ Hq), (no_io_write_lengths _ Hq).
  - now rewrite (no_io_read_lengths _ Hq), (no_io_read_offsets _ Hq).
  - now rewrite (no_io_write_lengths _ Hq), (no_io_write_offsets _ Hq).
Qed.

(** The books are in order in every state a started transfer passes
    through. *)
Lemma reachable_ledger e theURL spec vol s :
  0 <= env_file_size e <= long_max ->
  setup_succeeds e theURL spec vol = true ->
  descriptors_made e = true ->
  Reachable kDataBufferSize
    (snd (QTFileTrans_CopyRemoteFileToLocalFile kDataBufferSize e theURL spec
            (initial_state vol))) s ->
  Linked (env_file_size e) s
  /\ Phase (env_file_size e) s
  /\ Ledger e kDataBufferSize s.
Proof.
  intros HS Hok Hmade.
  destruct (copy_success kDataBufferSize e theURL spec vol Hok) as (sp & Heq & P & _).
  rewrite Heq. cbn [snd].
  destruct (bootstrap_phase kDataBufferSize buffer_size_range e sp P Hmade HS) as [HL0 HP0].
  pose proof (ledger_bootstrap e sp P Hmade HS) as HB0.
  intros HR. induction HR as [| s a err s' HR IH Hd].
  - auto.
  - destruct IH as (HL & HP & HB).
    destruct (phase_step kDataBufferSize buffer_size_range _ _ _ _ _ HL HP Hd)
      as (HL' & HP' & _).
    split; [assumption|]. split; [assumption|].
    exact (ledger_step e _ _ _ _ _ HL HP HB Hd).
Qed.

End Books.

Lemma read_offsets_at_offset e C t l :
  Forall (call_fits e C) t ->
  map lo (read_offsets t) = l ->
  read_offsets t = map at_offset l.
Proof.
  intros Hf <-. induction Hf as [|c t Hc Hf IH]; [reflexivity|].
  change (c :: t) with ([c] ++ t). rewrite read_offsets_app, map_app, map_app, <- IH.
  f_equal. destruct c; try reflexivity.
  simpl in *. destruct Hc as (_ & _ & _ & _ & _ & Hhi).
  destruct offset as [h l]. simpl in *. subst h. reflexivity.
Qed.

(** X1. The tally and the trace agree: in every state a started
    transfer passes through, the lengths of the writes issued add up
    to [gBytesTransferred] plus the write still outstanding, the
    lengths of the reads issued to [gBytesTransferred] plus whatever is
    outstanding, so the reads are never more than one buffer ahead of
    the tally; and when the flag is set both add up to the file
    size. *)
Theorem tally_matches_trace :
  forall (kDataBufferSize : Z) e theURL spec vol s,
    0 < kDataBufferSize <= long_max ->
    0 <= env_file_size e <= long_max ->
    setup_succeeds e theURL spec vol = true ->
    descriptors_made e = true ->
    Reachable kDataBufferSize
      (snd (QTFileTrans_CopyRemoteFileToLocalFile kDataBufferSize e theURL spec
              (initial_state vol))) s ->
    sum (write_lengths (trace s))
    = gBytesTransferred s + sum (map req_len (filter is_write_request (outstanding s)))
    /\ sum (read_lengths (trace s))
       = gBytesTransferred s + sum (map req_len (outstanding s))
    /\ gBytesTransferred s <= sum (write_lengths (trace s))
       <= sum (read_lengths (trace s))
    /\ sum (read_lengths (trace s)) <= gBytesTransferred s + kDataBufferSize
    /\ sum (read_lengths (trace s)) <= env_file_size e
    /\ (gDoneTransferring s = true ->
        sum (write_lengths (trace s)) = env_file_size e
        /\ sum (read_lengths (trace s)) = env_file_size e).
Proof.
  intros C e theURL spec vol s HC HS Hok Hmade HR.
  destruct (reachable_ledger C HC e theURL spec vol s HS Hok Hmade HR) as (HL & HP & HB).
  destruct HB as [_ _ _ _ _ Hq _ Hrs Hws _ _ _].
  rewrite Hrs, Hws.
  split; [reflexivity|]. split; [reflexivity|].
  destruct HP as [Ho HT Hdone | buf k Ho Hk H0 HT Hdone | buf k Ho Hk H0 HT Hdone];
    rewrite Ho in *; unfold sum; simpl.
  - split; [lia|]. split; [lia|]. split; [lia|]. intros _. split; lia.
  - apply Forall_inv in Hq. simpl in Hq.
    split; [lia|]. split; [lia|]. split; [lia|].
    intros Hd. rewrite Hdone in Hd. discriminate.
  - apply Forall_inv in Hq. simpl in Hq.
    split; [lia|]. split; [lia|]. split; [lia|].
    intros Hd. rewrite Hdone in Hd. discriminate.
Qed.

Lemma tally_matches_trace_witness :
  sum (write_lengths (trace (run 4096 2 sample_io sample_start))) = 4096
  /\ sum (read_lengths (trace (run 4096 2 sample_io sample_start))) = 8192
  /\ gBytesTransferred (run 4096 2 sample_io sample_start) = 4096.
Proof.
  assert (HR : Reachable 4096 sample_start (run 4096 2 sample_io sample_start)).
  { apply (reach_completion 4096 sample_start (run 4096 1 sample_io sample_start) 0 noErr).
    - apply (reach_completion 4096 sample_start sample_start 0 noErr).
      + apply reach_start.
      + vm_compute. reflexivity.
    - vm_compute. reflexivity. }
  destruct (tally_matches_trace 4096 sample_env "http://host/file"%string "copy"%string []
              (run 4096 2 sample_io sample_start)) as (W & R & _).
  - unfold long_max. lia.
  - unfold long_max. simpl. lia.
  - vm_compute. reflexivity.
  - vm_compute. reflexivity.
  - exact HR.
  - split; [rewrite W; vm_compute; reflexivity|].
    split; [rewrite R; vm_compute; reflexivity|].
    vm_compute. reflexivity.
Defined.

(** X2. Reads and writes go through the file front to back without
    gap or overlap: each read starts where the reads before it end
    (with the high word of the offset 0), each write goes to the
    offset where the writes before it end, and the writes issued have,
    one for one, the lengths of the reads issued, at most the newest
    read still waiting for its write. *)
Theorem writes_mirror_reads :
  forall (kDataBufferSize : Z) e theURL spec vol s,
    0 < kDataBufferSize <= long_max ->
    0 <= env_file_size e <= long_max ->
    setup_succeeds e theURL spec vol = true ->
    descriptors_made e = true ->
    Reachable kDataBufferSize
      (snd (QTFileTrans_CopyRemoteFileToLocalFile kDataBufferSize e theURL spec
              (initial_state vol))) s ->
    read_offsets (trace s) = map at_offset (starts 0 (read_lengths (trace s)))
    /\ write_offsets (trace s) = starts 0 (write_lengths (trace s))
    /\ read_lengths (trace s)
       = write_lengths (trace s) ++ map req_len (filter is_read_request (outstanding s))
    /\ (List.length (filter is_read_request (outstanding s)) <= 1)%nat.
Proof.
  intros C e theURL spec vol s HC HS Hok Hmade HR.
  destruct (reachable_ledger C HC e theURL spec vol s HS Hok Hmade HR) as (HL & HP & HB).
  split; [exact (read_offsets_at_offset e C _ _ (ledger_calls _ _ _ HB)
                   (ledger_read_offsets _ _ _ HB))|].
  split; [exact (ledger_write_offsets _ _ _ HB)|].
  split; [exact (ledger_mirror _ _ _ HB)|].
  destruct HP as [Ho HT Hdone | buf k Ho Hk H0 HT Hdone | buf k Ho Hk H0 HT Hdone];
    rewrite Ho; simpl; lia.
Qed.

Lemma writes_mirror_reads_witness :
  read_offsets (trace (run 4096 6 sample_io sample_start))
  = [at_offset 0; at_offset 4096; at_offset 8192]
  /\ write_offsets (trace (run 4096 6 sample_io sample_start)) = [0; 4096; 8192].
Proof.
  assert (HR : Reachable 4096 sample_start (run 4096 6 sample_io sample_start)).
  { apply (reach_completion 4096 sample_start (run 4096 5 sample_io sample_start) 0 noErr).
    - apply (reach_completion 4096 sample_start (run 4096 4 sample_io sample_start) 0 noErr).
      + apply (reach_completion 4096 sample_start (run 4096 3 sample_io sample_start) 0 noErr).
        * apply (reach_completion 4096 sample_start (run 4096 2 sample_io sample_start)
                   0 noErr).
          -- apply (reach_completion 4096 sample_start (run 4096 1 sample_io sample_start)
                      0 noErr).
             ++ apply (reach_completion 4096 sample_start sample_start 0 noErr).
                ** apply reach_start.
                ** vm_compute. reflexivity.
             ++ vm_compute. reflexivity.
          -- vm_compute. reflexivity.
        * vm_compute. reflexivity.
      + vm_compute. reflexivity.
    - vm_compute. reflexivity. }
  destruct (writes_mirror_reads 4096 sample_env "http://host/file"%string "copy"%string []
              (run 4096 6 sample_io sample_start)) as (R & W & _).
  - unfold long_max. lia.
  - unfold long_max. simpl. lia.
  - vm_compute. reflexivity.
  - vm_compute. reflexivity.
  - exact HR.
  - split; [rewrite R; vm_compute; reflexivity | rewrite W; vm_compute; reflexivity].
Defined.

(** X3. One request at a time, within the buffer and within the file:
    in every state a started transfer passes through at most one
    request is outstanding, and none exactly when the flag is set; an
    outstanding request uses the data buffer, is of 1 to
    [kDataBufferSize] bytes, ends at or before the end of the file and
    carries its length as reference constant; and every read and write
    issued so far was made on the component opened for it, through the
    data buffer, with a length of 1 to [kDataBufferSize] bytes. *)
Theorem one_request_in_flight :
  forall (kDataBufferSize : Z) e theURL spec vol s,
    0 < kDataBufferSize <= long_max ->
    0 <= env_file_size e <= long_max ->
    setup_succeeds e theURL spec vol = true ->
    descriptors_made e = true ->
    Reachable kDataBufferSize
      (snd (QTFileTrans_CopyRemoteFileToLocalFile kDataBufferSize e theURL spec
              (initial_state vol))) s ->
    (List.length (outstanding s) <= 1)%nat
    /\ (outstanding s = [] <-> gDoneTransferring s = true)
    /\ Forall (fun r =>
                 req_buf r = env_buffer e
                 /\ 0 < req_len r <= kDataBufferSize
                 /\ gBytesTransferred s + req_len r <= env_file_size e
                 /\ req_refCon r = req_len r)
              (outstanding s)
    /\ Forall (call_fits e kDataBufferSize) (trace s).
Proof.
  intros C e theURL spec vol s HC HS Hok Hmade HR.
  destruct (reachable_ledger C HC e theURL spec vol s HS Hok Hmade HR) as (HL & HP & HB).
  pose proof (ledger_requests _ _ _ HB) as Hq.
  destruct HP as [Ho HT Hdone | buf k Ho Hk H0 HT Hdone | buf k Ho Hk H0 HT Hdone];
    rewrite Ho in *; simpl.
  - split; [lia|]. split; [tauto|]. split; [constructor | apply HB].
  - apply Forall_inv in Hq. simpl in Hq.
    split; [lia|]. split; [rewrite Hdone; split; discriminate|].
    split; [|apply HB].
    constructor; [|constructor]. simpl. repeat split; try tauto; lia.
  - apply Forall_inv in Hq. simpl in Hq.
    split; [lia|]. split; [rewrite Hdone; split; discriminate|].
    split; [|apply HB].
    constructor; [|constructor]. simpl. repeat split; try tauto; lia.
Qed.

Lemma one_request_in_flight_witness :
  (List.length (outstanding (run 4096 1 sample_io sample_start)) <= 1)%nat
  /\ Forall (fun r => req_buf r = 3000 /\ 0 < req_len r <= 4096)
            (outstanding (run 4096 1 sample_io sample_start)).
Proof.
  assert (HR : Reachable 4096 sample_start (run 4096 1 sample_io sample_start)).
  { apply (reach_completion 4096 sample_start sample_start 0 noErr).
    - apply reach_start.
    - vm_compute. reflexivity. }
  destruct (one_request_in_flight 4096 sample_env "http://host/file"%string "copy"%string []
              (run 4096 1 sample_io sample_start)) as (L & _ & F & _).
  - unfold long_max. lia.
  - unfold long_max. simpl. lia.
  - vm_compute. reflexivity.
  - vm_compute. reflexivity.
  - exact HR.
  - split; [exact L|].
    eapply Forall_impl; [|exact F].
    intros r (Hb & Hl & _). split; [exact Hb | exact Hl].
Defined.

(** ** More on the set-up *)

Ltac paths_cbn :=
  cbn -[Z.eqb wrap32 QTFileTrans_WriteDataCompletionProc fs_lookup fs_remove
        Noticed ReplacedAt Idle Held Begins Cleared].

Ltac path_step H :=
  first
    [ rewrite fs_lookup_remove
    | match goal with
      | L : fs_lookup ?sp ?v = _ |- context [fs_lookup ?sp ?v] => rewrite L
      end
    | match goal with
      | |- context [fs_lookup ?sp ?v] =>
          let L := fresh "L" in destruct (fs_lookup sp v) eqn:L; rewrite ?L in H
      end
    | match goal with
      | |- context [if negb ?c then _ else _] =>
          let E := fresh "E" in destruct c eqn:E; rewrite ?E in H
      end
    | match goal with
      | |- context [if ?c then _ else _] =>
          let E := fresh "E" in destruct c eqn:E; rewrite ?E in H
      end ];
  paths_cbn.

Ltac unfold_setup :=
  unfold QTFileTrans_setup, NewHandleClear, BlockMove, FSpDelete, FSpCreate, QTNewAlias,
    OpenComponent, DataHSetDataRef, NewPtrClear, DataHOpenForRead, DataHGetFileSize,
    DataHOpenForWrite, NewDataHCompletionUPP;
  paths_cbn.

Ltac infeasible H :=
  first
    [ discriminate H
    | match goal with
      | A : _ = true |- _ => discriminate A
      | A : _ = false |- _ => discriminate A
      end ].

Ltac rewrite_tests :=
  repeat match goal with
         | A : (?x =? ?y) = _ |- context [?x =? ?y] => rewrite A
         end.

Lemma closedown_counters s :
  gBytesTransferred (QTFileTrans_CloseDownHandlers s) = gBytesTransferred s
  /\ gBytesToTransfer (QTFileTrans_CloseDownHandlers s) = gBytesToTransfer s.
Proof.
  destruct s as [buf rd wr ru wu total count done ds out vol t].
  unfold QTFileTrans_CloseDownHandlers.
  cbn [gDataReader gDataWriter gDataBuffer gReadDataHCompletionUPP gWriteDataHCompletionUPP].
  destruct (rd =? NULL); cbn -[Z.eqb];
    destruct (wr =? NULL); cbn -[Z.eqb];
    destruct (buf =? NULL); cbn -[Z.eqb];
    destruct (ru =? NULL); cbn -[Z.eqb];
    destruct (wu =? NULL); split; reflexivity.
Qed.

Lemma closed_app t1 t2 : closed (t1 ++ t2) = closed t1 ++ closed t2.
Proof. apply flat_map_app. Qed.

Lemma opened_app t1 t2 : opened (t1 ++ t2) = opened t1 ++ opened t2.
Proof. apply flat_map_app. Qed.

Lemma closedown_calls_closed s : closed (closedown_calls s) = held s.
Proof.
  unfold closedown_calls, held.
  rewrite !closed_app.
  destruct (gDataReader s =? NULL); destruct (gDataWriter s =? NULL);
    destruct (gDataBuffer s =? NULL); destruct (gReadDataHCompletionUPP s =? NULL);
    destruct (gWriteDataHCompletionUPP s =? NULL); reflexivity.
Qed.

Lemma closedown_calls_opened s : opened (closedown_calls s) = [].
Proof.
  unfold closedown_calls.
  rewrite !opened_app.
  destruct (gDataReader s =? NULL); destruct (gDataWriter s =? NULL);
    destruct (gDataBuffer s =? NULL); destruct (gReadDataHCompletionUPP s =? NULL);
    destruct (gWriteDataHCompletionUPP s =? NULL); reflexivity.
Qed.

Section SetupPaths.

Variable kDataBufferSize : Z.

Lemma write_completion_frame buf n err s :
  exists calls,
    trace (QTFileTrans_WriteDataCompletionProc kDataBufferSize buf n err s)
    = trace s ++ calls
    /\ closed calls = [] /\ opened calls = []
    /\ volume (QTFileTrans_WriteDataCompletionProc kDataBufferSize buf n err s) = volume s
    /\ gDataReader (QTFileTrans_WriteDataCompletionProc kDataBufferSize buf n err s)
       = gDataReader s
    /\ gDataWriter (QTFileTrans_WriteDataCompletionProc kDataBufferSize buf n err s)
       = gDataWriter s.
Proof.
  unfold QTFileTrans_WriteDataCompletionProc. cbv zeta.
  destruct (_ <? _)%Z.
  - eexists. split; [reflexivity|]. repeat split.
  - exists []. simpl. rewrite app_nil_r. repeat split.
Qed.


(** Whatever happens in the set-up, at [bail] the two globals hold
    exactly the components opened, and none has been closed. *)
Lemma setup_held e theURL spec vol :
  Held (QTFileTrans_setup kDataBufferSize e theURL spec (initial_state vol)).
Proof.
  pose proof I as Hnone.
  unfold_setup.
  repeat (path_step Hnone;
          try first
              [ infeasible Hnone
              | match goal with
                | |- Held (_, QTFileTrans_WriteDataCompletionProc _ ?B _ _ ?S) =>
                    unfold Held, held; cbn [snd];
                    destruct (write_completion_frame B 0 noErr S)
                      as (calls & -> & Hc & Ho & _ & -> & ->);
                    rewrite closed_app, opened_app, Hc, Ho, !app_nil_r;
                    cbn -[Z.eqb]; rewrite_tests; cbn; split; reflexivity
                | |- Held (_, _) =>
                    unfold Held, held; cbn -[Z.eqb]; rewrite_tests; cbn; split; reflexivity
                end ]).
Qed.

(** A failure before the data handlers are opened is noticed. *)
Lemma setup_early_failure_noticed e theURL spec vol :
  reaches_open e theURL spec vol = false ->
  Noticed e (QTFileTrans_setup kDataBufferSize e theURL spec (initial_state vol)).
Proof.
  intros Hfail. unfold reaches_open in Hfail.
  setup_paths.
  repeat (setup_step Hfail; try noticed Hfail).
Qed.

(** A noticed failure comes back as an error when the toolbox's
    error codes are [OSErr] values. *)
Lemma noticed_returns_error e theURL spec vol :
  Noticed e (QTFileTrans_setup kDataBufferSize e theURL spec (initial_state vol)) ->
  forallb is_OSErr (env_error_codes e) = true ->
  fst (QTFileTrans_CopyRemoteFileToLocalFile kDataBufferSize e theURL spec
         (initial_state vol)) <> noErr.
Proof.
  intros (Hn & Hin & _) Hrange.
  unfold QTFileTrans_CopyRemoteFileToLocalFile.
  destruct (QTFileTrans_setup kDataBufferSize e theURL spec (initial_state vol))
    as [myErr s].
  cbn [fst snd] in *.
  assert (Hsmall : -32768 <= myErr <= 32767).
  { destruct Hin as [<- | [<- | Hin]]; [unfold badComponentType; lia
                                       | unfold dupFNErr; lia |].
    rewrite forallb_forall in Hrange. specialize (Hrange _ Hin).
    unfold is_OSErr in Hrange. apply andb_prop in Hrange. destruct Hrange as [A B].
    apply Z.leb_le in A, B. lia. }
  rewrite (to_OSErr_small _ Hsmall). exact Hn.
Qed.

(** What the set-up does first. *)
Lemma setup_begins e theURL spec vol :
  (Z.of_nat (String.length theURL) < long_max)%Z ->
  Begins (CallNewHandleClear (Z.of_nat (String.length theURL) + 1) (env_reader_ref e))
         (QTFileTrans_setup kDataBufferSize e theURL spec (initial_state vol)).
Proof.
  intros Hlen. pose proof I as Hnone.
  assert (Hsize : wrap32 (wrap32 (Z.of_nat (String.length theURL)) + 1)
                  = Z.of_nat (String.length theURL) + 1).
  { unfold long_max in Hlen.
    rewrite (wrap32_small (Z.of_nat (String.length theURL))) by (unfold long_max; lia).
    apply wrap32_small. unfold long_max. lia. }
  unfold_setup. rewrite !Hsize.
  destruct (Z.eqb_spec (Z.of_nat (String.length theURL) + 1) 0) as [Hz | _]; [lia|].
  repeat (path_step Hnone;
          try first
              [ infeasible Hnone
              | match goal with
                | |- Begins _ (_, QTFileTrans_WriteDataCompletionProc _ ?B _ _ ?S) =>
                    unfold Begins; cbn [snd];
                    destruct (write_completion_frame B 0 noErr S) as (calls & -> & _);
                    cbn; eexists; reflexivity
                | |- Begins _ (_, _) => unfold Begins; cbn; eexists; reflexivity
                end ]).
Qed.

(** Once the handle for the URL is there, the old destination file is
    done away with, however the set-up ends. *)
Lemma setup_cleared e theURL spec vol :
  (Z.of_nat (String.length theURL) < long_max)%Z ->
  env_reader_ref e <> NULL ->
  deletable e spec vol = true ->
  Cleared spec (QTFileTrans_setup kDataBufferSize e theURL spec (initial_state vol)).
Proof.
  intros Hlen Href Hdel. pose proof I as Hnone.
  assert (Hsize : wrap32 (wrap32 (Z.of_nat (String.length theURL)) + 1)
                  = Z.of_nat (String.length theURL) + 1).
  { unfold long_max in Hlen.
    rewrite (wrap32_small (Z.of_nat (String.length theURL))) by (unfold long_max; lia).
    apply wrap32_small. unfold long_max. lia. }
  apply Z.eqb_neq in Href. unfold deletable in Hdel.
  unfold_setup. rewrite !Hsize, Href.
  destruct (Z.eqb_spec (Z.of_nat (String.length theURL) + 1) 0) as [Hz | _]; [lia|].
  destruct (fs_lookup spec vol) eqn:L; [rewrite Hdel|]; paths_cbn;
    repeat (path_step Hnone;
            try first
                [ infeasible Hnone
                | match goal with
                  | |- Cleared _ (_, QTFileTrans_WriteDataCompletionProc _ ?B _ _ ?S) =>
                      unfold Cleared; cbn [snd];
                      destruct (write_completion_frame B 0 noErr S)
                        as (calls & _ & _ & _ & -> & _);
                      cbn; rewrite ?String.eqb_refl, ?fs_lookup_remove, ?L; auto
                  | |- Cleared _ (_, _) =>
                      unfold Cleared; cbn;
                      rewrite ?String.eqb_refl, ?fs_lookup_remove, ?L; auto
                  end ]).
Qed.

End SetupPaths.



(** X5. What the returned code says (the toolbox's error codes being
    [OSErr] values): [QTFileTrans_CopyRemoteFileToLocalFile] returns
    [noErr] exactly when every checked step succeeded, or when the
    set-up got as far as opening the data handlers and [OpenComponent]
    answered [NULL] for one of them. *)
Theorem returns_noErr_iff :
  forall (kDataBufferSize : Z) e theURL spec vol,
    forallb is_OSErr (env_error_codes e) = true ->
    fst (QTFileTrans_CopyRemoteFileToLocalFile kDataBufferSize e theURL spec
           (initial_state vol)) = noErr
    <-> (setup_succeeds e theURL spec vol = true
         \/ (reaches_open e theURL spec vol = true
             /\ (env_reader e = NULL \/ env_writer e = NULL))).
Proof.
  intros C e theURL spec vol Hrange. split.
  - intros Hret.
    destruct (setup_succeeds e theURL spec vol) eqn:Hok; [left; reflexivity|].
    right.
    destruct (reaches_open e theURL spec vol) eqn:Hopen.
    + split; [reflexivity|].
      destruct (Z.eq_dec (env_reader e) NULL) as [Hr | Hr]; [left; exact Hr|].
      destruct (Z.eq_dec (env_writer e) NULL) as [Hw | Hw]; [right; exact Hw|].
      exfalso.
      destruct (copy_failure_closes_down C e theURL spec vol Hok Hr Hw)
        as (myErr & s & _ & _ & Heq & _ & _ & _ & _ & Hcode).
      rewrite Heq in Hret. cbn [fst] in Hret. exact (Hcode Hrange Hret).
    + exfalso.
      exact (noticed_returns_error C e theURL spec vol
               (setup_early_failure_noticed C e theURL spec vol Hopen) Hrange Hret).
  - intros [Hok | [Hopen Hnull]].
    + destruct (copy_success C e theURL spec vol Hok) as (s & Heq & _).
      rewrite Heq. reflexivity.
    + now destruct (open_component_failure_unreported C e theURL spec vol Hopen Hnull).
Qed.

Lemma returns_noErr_iff_witness :
  fst (QTFileTrans_CopyRemoteFileToLocalFile 4096 no_reader_env "http://host/file"%string
         "copy"%string (initial_state [])) = noErr
  /\ fst (QTFileTrans_CopyRemoteFileToLocalFile 4096 unreachable_env
            "http://host/file"%string "copy"%string (initial_state [])) <> noErr.
Proof.
  split.
  - apply (returns_noErr_iff 4096 no_reader_env "http://host/file"%string "copy"%string []).
    + vm_compute. reflexivity.
    + right. split; [vm_compute; reflexivity | left; reflexivity].
  - intros H.
    apply (returns_noErr_iff 4096 unreachable_env "http://host/file"%string
             "copy"%string []) in H.
    + destruct H as [H | [_ [H | H]]]; vm_compute in H; discriminate H.
    + vm_compute. reflexivity.
Defined.

(** X6. When [QTFileTrans_CopyRemoteFileToLocalFile] returns an
    error, every data handler it opened has been closed again, once
    each and in the order opened, and [gDataReader] and [gDataWriter]
    are [NULL]. *)
Theorem error_return_closes_what_was_opened :
  forall (kDataBufferSize : Z) e theURL spec vol,
    fst (QTFileTrans_CopyRemoteFileToLocalFile kDataBufferSize e theURL spec
           (initial_state vol)) <> noErr ->
    closed (trace (snd (QTFileTrans_CopyRemoteFileToLocalFile kDataBufferSize e theURL spec
                          (initial_state vol))))
    = opened (trace (snd (QTFileTrans_CopyRemoteFileToLocalFile kDataBufferSize e theURL spec
                            (initial_state vol))))
    /\ gDataReader (snd (QTFileTrans_CopyRemoteFileToLocalFile kDataBufferSize e theURL spec
                           (initial_state vol))) = NULL
    /\ gDataWriter (snd (QTFileTrans_CopyRemoteFileToLocalFile kDataBufferSize e theURL spec
                           (initial_state vol))) = NULL.
Proof.
  intros C e theURL spec vol.
  pose proof (setup_held C e theURL spec vol) as [Hc Ho].
  unfold QTFileTrans_CopyRemoteFileToLocalFile.
  destruct (QTFileTrans_setup C e theURL spec (initial_state vol)) as [myErr s].
  cbn [fst snd] in *.
  destruct (myErr =? noErr) eqn:E; cbn [negb].
  - apply Z.eqb_eq in E. subst myErr. intros H. exfalso. apply H. reflexivity.
  - intros _.
    destruct (closedown_effect s) as (Htr & Hr & Hw & _).
    rewrite Htr, closed_app, opened_app, Hc, Ho,
      closedown_calls_closed, closedown_calls_opened, app_nil_r.
    split; [reflexivity|]. split; assumption.
Qed.

Lemma error_return_closes_what_was_opened_witness :
  closed (trace (snd (QTFileTrans_CopyRemoteFileToLocalFile 4096 unreachable_env
                        "http://host/file"%string "copy"%string (initial_state []))))
  = [2000; 2004]
  /\ opened (trace (snd (QTFileTrans_CopyRemoteFileToLocalFile 4096 unreachable_env
                           "http://host/file"%string "copy"%string (initial_state []))))
     = [2000; 2004].
Proof.
  destruct (error_return_closes_what_was_opened 4096 unreachable_env
              "http://host/file"%string "copy"%string []) as (H & _ & _).
  - vm_compute. discriminate.
  - split; [rewrite H|]; vm_compute; reflexivity.
Defined.

(** X7. The test [mySize == 0] lets every URL of fewer than 2^31 - 1
    characters through, the empty one included: the first thing the
    function does is allocate a handle of the URL's length plus one. *)
Theorem url_size_check_passes :
  forall (kDataBufferSize : Z) e theURL spec vol,
    Z.of_nat (String.length theURL) < long_max ->
    exists rest,
      trace (snd (QTFileTrans_CopyRemoteFileToLocalFile kDataBufferSize e theURL spec
                    (initial_state vol)))
      = CallNewHandleClear (Z.of_nat (String.length theURL) + 1) (env_reader_ref e) :: rest.
Proof.
  intros C e theURL spec vol Hlen.
  destruct (setup_begins C e theURL spec vol Hlen) as [rest Hrest].
  unfold QTFileTrans_CopyRemoteFileToLocalFile.
  destruct (QTFileTrans_setup C e theURL spec (initial_state vol)) as [myErr s].
  cbn [fst snd] in *.
  destruct (negb (myErr =? noErr)).
  - destruct (closedown_effect s) as (Htr & _).
    rewrite Htr, Hrest. eexists. reflexivity.
  - exists rest. exact Hrest.
Qed.

Lemma url_size_check_passes_witness :
  exists rest,
    trace (snd (QTFileTrans_CopyRemoteFileToLocalFile 4096 sample_env ""%string
                  "copy"%string (initial_state [])))
    = CallNewHandleClear 1 1000 :: rest.
Proof.
  apply (url_size_check_passes 4096 sample_env ""%string "copy"%string []).
  vm_compute. reflexivity.
Defined.

(** X8. Once the handle for the URL has been allocated, an old
    destination file that [FSpDelete] can remove does not survive the
    call, whether or not a transfer is started: afterwards there is no
    file at the destination or the new, empty one. *)
Theorem old_destination_does_not_survive :
  forall (kDataBufferSize : Z) e theURL spec vol,
    Z.of_nat (String.length theURL) < long_max ->
    env_reader_ref e <> NULL ->
    deletable e spec vol = true ->
    fs_lookup spec
      (volume (snd (QTFileTrans_CopyRemoteFileToLocalFile kDataBufferSize e theURL spec
                      (initial_state vol)))) = None
    \/ fs_lookup spec
         (volume (snd (QTFileTrans_CopyRemoteFileToLocalFile kDataBufferSize e theURL spec
                         (initial_state vol)))) = Some [].
Proof.
  intros C e theURL spec vol Hlen Href Hdel.
  pose proof (setup_cleared C e theURL spec vol Hlen Href Hdel) as H.
  unfold Cleared in H. unfold QTFileTrans_CopyRemoteFileToLocalFile.
  destruct (QTFileTrans_setup C e theURL spec (initial_state vol)) as [myErr s].
  cbn [fst snd] in *.
  destruct (negb (myErr =? noErr)); [rewrite closedown_volume|]; exact H.
Qed.

Lemma old_destination_does_not_survive_witness :
  fst (QTFileTrans_CopyRemoteFileToLocalFile 4096 unreachable_env "http://host/file"%string
         "copy"%string (initial_state [("copy"%string, [x01; x02; x03])])) <> noErr
  /\ fs_lookup "copy"%string
       (volume (snd (QTFileTrans_CopyRemoteFileToLocalFile 4096 unreachable_env
                       "http://host/file"%string "copy"%string
                       (initial_state [("copy"%string, [x01; x02; x03])])))) = Some [].
Proof.
  split; [vm_compute; discriminate|].
  destruct (old_destination_does_not_survive 4096 unreachable_env
              "http://host/file"%string "copy"%string [("copy"%string, [x01; x02; x03])])
    as [H | H].
  - vm_compute. reflexivity.
  - vm_compute. discriminate.
  - vm_compute. reflexivity.
  - vm_compute in H. discriminate H.
  - exact H.
Defined.

(** ** Starting again *)

Section Again.

Variable kDataBufferSize : Z.


End Again.



(** ** The event loop *)






(** ** Closing down, again *)

(** X12. [QTFileTrans_CloseDownHandlers] never closes a component
    twice and never disturbs the transfer's books: called a second
    time it makes no closing call, with all five globals [NULL] it
    makes no call at all, and in any state it leaves the tally, the
    size, the flag, the outstanding requests and the disk as they
    are. *)
Theorem closedown_spares_components_and_books :
  forall (s : State),
    (exists calls,
        trace (QTFileTrans_CloseDownHandlers (QTFileTrans_CloseDownHandlers s))
        = trace (QTFileTrans_CloseDownHandlers s) ++ calls
        /\ closed calls = []
        /\ existsb is_close_component calls = false)
    /\ (gDataReader s = NULL -> gDataWriter s = NULL -> gDataBuffer s = NULL ->
        gReadDataHCompletionUPP s = NULL -> gWriteDataHCompletionUPP s = NULL ->
        trace (QTFileTrans_CloseDownHandlers s) = trace s)
    /\ gBytesTransferred (QTFileTrans_CloseDownHandlers s) = gBytesTransferred s
    /\ gBytesToTransfer (QTFileTrans_CloseDownHandlers s) = gBytesToTransfer s
    /\ gDoneTransferring (QTFileTrans_CloseDownHandlers s) = gDoneTransferring s
    /\ outstanding (QTFileTrans_CloseDownHandlers s) = outstanding s
    /\ volume (QTFileTrans_CloseDownHandlers s) = volume s.
Proof.
  intros s.
  destruct (closedown_effect s) as (Ht & Hr & Hw & _ & _ & _ & Hd).
  destruct (closedown_counters s) as [Hc Hs].
  split.
  { destruct (closedown_effect (QTFileTrans_CloseDownHandlers s)) as (Ht1 & _).
    exists (closedown_calls (QTFileTrans_CloseDownHandlers s)).
    split; [exact Ht1|].
    split.
    - rewrite closedown_calls_closed. unfold held. rewrite Hr, Hw. reflexivity.
    - unfold closedown_calls. rewrite Hr, Hw. simpl. repeat break_if; reflexivity. }
  split.
  { intros H1 H2 H3 H4 H5. rewrite Ht. unfold closedown_calls.
    rewrite H1, H2, H3, H4, H5. simpl. apply app_nil_r. }
  split; [exact Hc|]. split; [exact Hs|]. split; [exact Hd|].
  split; [apply closedown_outstanding | apply closedown_volume].
Qed.

Lemma closedown_spares_components_and_books_witness :
  trace (QTFileTrans_CloseDownHandlers (initial_state [])) = []
  /\ gBytesTransferred (QTFileTrans_CloseDownHandlers (run 4096 6 sample_io sample_start))
     = 10000.
Proof.
  destruct (closedown_spares_components_and_books (initial_state []))
    as (_ & H & _).
  destruct (closedown_spares_components_and_books (run 4096 6 sample_io sample_start))
    as (_ & _ & T & _).
  split.
  - rewrite H; reflexivity.
  - rewrite T. vm_compute. reflexivity.
Defined.


(** ** How long a transfer takes *)

Section Duration.

Variable kDataBufferSize : Z.
Hypothesis buffer_size_range : 0 < kDataBufferSize <= long_max.

(** Short of two completions per piece still to be read, the flag is
    not set. *)
Lemma run_before_end total :
  forall (m : nat) s buf n err fuel io,
    Linked total s ->
    outstanding s = [] ->
    gDoneTransferring s = false ->
    0 <= gBytesTransferred s + n <= total ->
    (Z.to_nat (total - (gBytesTransferred s + n)) <= m)%nat ->
    (fuel < 2 * List.length (expected_read_lengths (total - (gBytesTransferred s + n))
                                                   kDataBufferSize))%nat ->
    gDoneTransferring
      (run kDataBufferSize fuel io
           (QTFileTrans_WriteDataCompletionProc kDataBufferSize buf n err s)) = false.
Proof.
  induction m as [|m IH]; intros s buf n err fuel io HL Ho Hdone Hn Hm Hfuel;
    pose proof HL as [Ht Hr Hlr Hlw];
    destruct (Z.eq_dec (gBytesTransferred s + n) total) as [Heq | Hne]; try lia.
  - replace (total - (gBytesTransferred s + n)) with 0 in Hfuel by lia.
    rewrite expected_read_lengths_0 in Hfuel by lia. simpl in Hfuel. lia.
  - replace (total - (gBytesTransferred s + n)) with 0 in Hfuel by lia.
    rewrite expected_read_lengths_0 in Hfuel by lia. simpl in Hfuel. lia.
  - rewrite expected_read_lengths_step in Hfuel by lia.
    rewrite write_completion_continues by lia. cbv zeta. rewrite Ht.
    set (t := gBytesTransferred s + n) in *.
    set (k := Z.min kDataBufferSize (total - t)) in *.
    destruct fuel as [|[|fuel]].
    + simpl. exact Hdone.
    + cbn [run].
      erewrite deliver_read_completion;
        [| unfold DataHReadAsync; simpl; rewrite Ho; reflexivity | simpl; assumption].
      simpl. exact Hdone.
    + cbn [run].
      erewrite deliver_read_completion;
        [| unfold DataHReadAsync; simpl; rewrite Ho; reflexivity | simpl; assumption].
      erewrite deliver_write_completion;
        [| unfold QTFileTrans_ReadDataCompletionProc, DataHWrite; simpl; reflexivity
         | simpl; assumption].
      cbn [req_buf req_refCon].
      match goal with
      | |- context [run _ _ _ (QTFileTrans_WriteDataCompletionProc _ _ _ _ ?S)] =>
          specialize (IH S buf k (snd (io fuel)) fuel io)
      end.
      simpl in IH.
      replace (total - (t + k)) with (total - t - k) in IH by lia.
      apply IH.
      * constructor; assumption.
      * reflexivity.
      * assumption.
      * subst k. lia.
      * subst k. lia.
      * simpl in Hfuel. lia.
Qed.

End Duration.

(** X13. A transfer takes two completions for each piece, no fewer:
    after the set-up has gone through, [gDoneTransferring] is true
    after [fuel] completion deliveries exactly when [fuel] is at least
    twice the number of pieces the file is read in. *)
Theorem done_after_two_completions_per_piece :
  forall (kDataBufferSize : Z) e theURL spec vol fuel io,
    0 < kDataBufferSize <= long_max ->
    0 <= env_file_size e <= long_max ->
    setup_succeeds e theURL spec vol = true ->
    descriptors_made e = true ->
    gDoneTransferring
      (run kDataBufferSize fuel io
         (snd (QTFileTrans_CopyRemoteFileToLocalFile kDataBufferSize e theURL spec
                 (initial_state vol)))) = true
    <-> (2 * List.length (expected_read_lengths (env_file_size e) kDataBufferSize)
         <= fuel)%nat.
Proof.
  intros C e theURL spec vol fuel io HC HS Hok Hmade.
  destruct (copy_success C e theURL spec vol Hok) as (s & Heq & P & _).
  rewrite Heq. cbn [snd].
  pose proof (primed_linked e s P Hmade HS) as HL.
  assert (Hrest : env_file_size e - (gBytesTransferred s + 0) = env_file_size e).
  { rewrite (primed_count _ _ P). lia. }
  split.
  - intros Hdone.
    destruct (Nat.le_gt_cases
                (2 * List.length (expected_read_lengths (env_file_size e) C)) fuel)
      as [Hle | Hgt]; [exact Hle|].
    exfalso.
    rewrite (run_before_end C HC (env_file_size e) (Z.to_nat (env_file_size e))
               s (gDataBuffer s) 0 noErr fuel io HL) in Hdone.
    + discriminate.
    + apply P.
    + apply P.
    + rewrite (primed_count _ _ P). lia.
    + rewrite Hrest. lia.
    + rewrite Hrest. exact Hgt.
  - intros Hle.
    destruct (run_from_write_completion C HC (env_file_size e)
                (Z.to_nat (env_file_size e)) s (gDataBuffer s) 0 noErr fuel io HL)
      as (_ & I2 & _).
    + apply P.
    + rewrite (primed_count _ _ P). lia.
    + rewrite Hrest. lia.
    + rewrite Hrest. exact Hle.
    + exact I2.
Qed.

Lemma done_after_two_completions_per_piece_witness :
  gDoneTransferring (run 4096 5 sample_io sample_start) <> true
  /\ gDoneTransferring (run 4096 6 sample_io sample_start) = true.
Proof.
  split.
  - intros H.
    apply (done_after_two_completions_per_piece 4096 sample_env "http://host/file"%string
             "copy"%string [] 5%nat sample_io) in H.
    + vm_compute in H. lia.
    + unfold long_max. lia.
    + unfold long_max. simpl. lia.
    + vm_compute. reflexivity.
    + vm_compute. reflexivity.
  - apply (done_after_two_completions_per_piece 4096 sample_env "http://host/file"%string
             "copy"%string [] 6%nat sample_io).
    + unfold long_max. lia.
    + unfold long_max. simpl. lia.
    + vm_compute. reflexivity.
    + vm_compute. reflexivity.
    + vm_compute. lia.
Defined.
